(** * Startup configuration of the storage server: cmd/common-main.go

    A shallow embedding of the start-up resolvers of [cmd/common-main.go]
    (directory options, domain names, public addresses, KMS selection, TLS
    certificate discovery) and the properties of their specification.

    Conventions.
    - Go strings are [string]; a Go [error] is its message.
    - A Go call returning [(T, error)] returns a [result T].
    - Process-wide variables live in one record, [Globals], threaded through
      a state monad [M] whose second outcome, [Exit], is the process
      terminating inside [logger.Fatal] / [logger.FatalIf].
    - Packages the file imports but that are not part of it (the [cli] flag
      library, [path/filepath], [os], [net], [dns], [kms], [crypto], [certs])
      are the variables of the section that models their caller. *)

From Stdlib Require Import String Ascii List Bool Arith NArith Lia Permutation Sorted.
From stdpp Require Import base strings gmap sets list.

Open Scope string_scope.

(** ** Go values *)

Definition error : Type := string.

Inductive result (A : Type) : Type :=
| OK (a : A)
| Err (e : error).
Arguments OK {A} a.
Arguments Err {A} e.

(** [errInvalidArgument] is declared in another file of package [cmd]; only
    its being non-nil matters here. *)
Definition errInvalidArgument : error := "Invalid arguments specified".

(** The double quote character that [%q] puts around its operand. *)
Definition dquote : string := String (ascii_of_nat 34) EmptyString.

(** [fmt]'s [%q] on a string without characters that need escaping. *)
Definition quoted (s : string) : string := dquote ++ s ++ dquote.

(** ** Package [strings] *)

Module strings.

Definition HasPrefix (s prefix : string) : bool := String.prefix prefix s.

(** [genSplit sep n skip acc s]: cut [s] at the first [n] occurrences of the
    non-empty separator [sep], scanning left to right; [acc] is the piece
    being read and [skip] the number of separator characters still to drop. *)
Fixpoint genSplit (sep : string) (n skip : nat) (acc s : string) : list string :=
  match s with
  | EmptyString => [acc]
  | String c s' =>
      match skip with
      | S k => genSplit sep n k acc s'
      | O =>
          match n with
          | O => genSplit sep O O (acc ++ String c EmptyString) s'
          | S m =>
              if String.prefix sep s
              then acc :: genSplit sep m (String.length sep - 1) "" s'
              else genSplit sep n O (acc ++ String c EmptyString) s'
          end
      end
  end.

(** [strings.Split(s, sep)] for a non-empty [sep]. *)
Definition Split (s sep : string) : list string :=
  genSplit sep (String.length s) 0 "" s.

(** [strings.SplitN(s, sep, n)] for a non-empty [sep] and [n >= 0]. *)
Definition SplitN (s sep : string) (n : nat) : list string :=
  match n with
  | O => []
  | S m => genSplit sep m 0 "" s
  end.

End strings.

(** ** Package [sort] *)

Module sort.

Fixpoint insert (x : string) (l : list string) : list string :=
  match l with
  | [] => [x]
  | y :: l' => if String.leb x y then x :: l else y :: insert x l'
  end.

(** [sort.Strings]: the slice in increasing (byte-wise lexicographic)
    order.  Strings that compare equal are equal, so the result does not
    depend on the sorting algorithm; insertion sort computes it. *)
Definition Strings (l : list string) : list string := foldr insert [] l.

End sort.

(** ** The flag library, as the resolvers observe a [*cli.Context] *)

Module cli.

(** What the code asks of a context: the flag on the command's own scope
    ([IsSet]/[String]), on the enclosing scopes ([GlobalIsSet]/
    [GlobalString]) and, through [ctx.Parent()], on the scopes enclosing
    the parent.  [Parent] is only consulted after [GlobalIsSet] answered
    true, so it is kept total. *)
Record Context : Type := {
  IsSet : string → bool;
  String : string → string;
  GlobalIsSet : string → bool;
  GlobalString : string → string;
  ParentGlobalIsSet : string → bool;
  ParentGlobalString : string → string;
}.

End cli.

(** ** Process-wide state *)

(** [ConfigDir] of config-dir.go: the struct literal [ConfigDir{path: ...}]
    is all the code builds. *)
Record ConfigDir : Type := { path : string }.

(** Modelled from the spec: [ConfigDir.Get] (config-dir.go is not part of
    the sources) reads the directory's path. *)
Definition Get (dir : ConfigDir) : string := path dir.

Record CLIContext : Type := {
  JSON : bool;
  Quiet : bool;
  Anonymous : bool;
  Addr : string;
  StrictS3Compat : bool;
}.

(** The modes [logger.EnableJSON], [EnableQuiet] and [EnableAnonymous] turn on. *)
Record LoggerModes : Type := {
  jsonFlag : bool;
  quietFlag : bool;
  anonFlag : bool;
}.

Inductive Transport : Type :=
| customHTTPTransportWithHTTP2.

(** [crypto.KesConfig], with the fields the code fills in. *)
Record KesConfig : Type := {
  Enabled : bool;
  Endpoint : list string;
  DefaultKeyID : string;
  CertFile : string;
  KeyFile : string;
  CAPath : string;
  KesTransport : Transport;
}.

(** The value held by [GlobalKMS], tagged by the constructor call that made
    it: [kms.Parse] on the secret key, [kms.New] on the identifier and the
    decoded master key, or [crypto.NewKes] on the endpoint configuration.
    [None] in [GlobalKMS] is Go's nil. *)
Inductive KMS : Type :=
| StaticSecret (key : string)
| LegacyMasterKey (id : string) (rawKey : list N)
| RemoteEndpoint (cfg : KesConfig).

Record Globals : Type := {
  globalCLIContext : CLIContext;
  loggerModes : LoggerModes;
  globalConfigDir : ConfigDir;
  globalCertsDir : ConfigDir;
  globalCertsCADir : ConfigDir;
  globalDomainNames : list string;
  (** the sets handed to [updateDomainIPs], oldest first *)
  domainIPsUpdates : list (gset string);
  GlobalKMS : option KMS;
  (** assignments to [GlobalKMS], oldest first *)
  kmsWrites : list KMS;
  (** errors passed to [logger.LogIf], oldest first *)
  logged : list error;
  (** directories [mkdirAllIgnorePerm] was asked to create, oldest first *)
  mkdirs : list string;
}.

Definition set_globalCLIContext (f : CLIContext → CLIContext) (g : Globals) : Globals :=
  {| globalCLIContext := f (globalCLIContext g); loggerModes := loggerModes g;
     globalConfigDir := globalConfigDir g; globalCertsDir := globalCertsDir g;
     globalCertsCADir := globalCertsCADir g; globalDomainNames := globalDomainNames g;
     domainIPsUpdates := domainIPsUpdates g; GlobalKMS := GlobalKMS g;
     kmsWrites := kmsWrites g; logged := logged g; mkdirs := mkdirs g |}.

Definition set_loggerModes (f : LoggerModes → LoggerModes) (g : Globals) : Globals :=
  {| globalCLIContext := globalCLIContext g; loggerModes := f (loggerModes g);
     globalConfigDir := globalConfigDir g; globalCertsDir := globalCertsDir g;
     globalCertsCADir := globalCertsCADir g; globalDomainNames := globalDomainNames g;
     domainIPsUpdates := domainIPsUpdates g; GlobalKMS := GlobalKMS g;
     kmsWrites := kmsWrites g; logged := logged g; mkdirs := mkdirs g |}.

Definition set_globalConfigDir (d : ConfigDir) (g : Globals) : Globals :=
  {| globalCLIContext := globalCLIContext g; loggerModes := loggerModes g;
     globalConfigDir := d; globalCertsDir := globalCertsDir g;
     globalCertsCADir := globalCertsCADir g; globalDomainNames := globalDomainNames g;
     domainIPsUpdates := domainIPsUpdates g; GlobalKMS := GlobalKMS g;
     kmsWrites := kmsWrites g; logged := logged g; mkdirs := mkdirs g |}.

Definition set_globalCertsDir (d : ConfigDir) (g : Globals) : Globals :=
  {| globalCLIContext := globalCLIContext g; loggerModes := loggerModes g;
     globalConfigDir := globalConfigDir g; globalCertsDir := d;
     globalCertsCADir := globalCertsCADir g; globalDomainNames := globalDomainNames g;
     domainIPsUpdates := domainIPsUpdates g; GlobalKMS := GlobalKMS g;
     kmsWrites := kmsWrites g; logged := logged g; mkdirs := mkdirs g |}.

Definition set_globalCertsCADir (d : ConfigDir) (g : Globals) : Globals :=
  {| globalCLIContext := globalCLIContext g; loggerModes := loggerModes g;
     globalConfigDir := globalConfigDir g; globalCertsDir := globalCertsDir g;
     globalCertsCADir := d; globalDomainNames := globalDomainNames g;
     domainIPsUpdates := domainIPsUpdates g; GlobalKMS := GlobalKMS g;
     kmsWrites := kmsWrites g; logged := logged g; mkdirs := mkdirs g |}.

Definition set_globalDomainNames (f : list string → list string) (g : Globals) : Globals :=
  {| globalCLIContext := globalCLIContext g; loggerModes := loggerModes g;
     globalConfigDir := globalConfigDir g; globalCertsDir := globalCertsDir g;
     globalCertsCADir := globalCertsCADir g; globalDomainNames := f (globalDomainNames g);
     domainIPsUpdates := domainIPsUpdates g; GlobalKMS := GlobalKMS g;
     kmsWrites := kmsWrites g; logged := logged g; mkdirs := mkdirs g |}.

Definition push_domainIPs (s : gset string) (g : Globals) : Globals :=
  {| globalCLIContext := globalCLIContext g; loggerModes := loggerModes g;
     globalConfigDir := globalConfigDir g; globalCertsDir := globalCertsDir g;
     globalCertsCADir := globalCertsCADir g; globalDomainNames := globalDomainNames g;
     domainIPsUpdates := domainIPsUpdates g ++ [s]; GlobalKMS := GlobalKMS g;
     kmsWrites := kmsWrites g; logged := logged g; mkdirs := mkdirs g |}.

Definition set_GlobalKMS (k : KMS) (g : Globals) : Globals :=
  {| globalCLIContext := globalCLIContext g; loggerModes := loggerModes g;
     globalConfigDir := globalConfigDir g; globalCertsDir := globalCertsDir g;
     globalCertsCADir := globalCertsCADir g; globalDomainNames := globalDomainNames g;
     domainIPsUpdates := domainIPsUpdates g; GlobalKMS := Some k;
     kmsWrites := kmsWrites g ++ [k]; logged := logged g; mkdirs := mkdirs g |}.

Definition push_logged (e : error) (g : Globals) : Globals :=
  {| globalCLIContext := globalCLIContext g; loggerModes := loggerModes g;
     globalConfigDir := globalConfigDir g; globalCertsDir := globalCertsDir g;
     globalCertsCADir := globalCertsCADir g; globalDomainNames := globalDomainNames g;
     domainIPsUpdates := domainIPsUpdates g; GlobalKMS := GlobalKMS g;
     kmsWrites := kmsWrites g; logged := logged g ++ [e]; mkdirs := mkdirs g |}.

Definition push_mkdir (p : string) (g : Globals) : Globals :=
  {| globalCLIContext := globalCLIContext g; loggerModes := loggerModes g;
     globalConfigDir := globalConfigDir g; globalCertsDir := globalCertsDir g;
     globalCertsCADir := globalCertsCADir g; globalDomainNames := globalDomainNames g;
     domainIPsUpdates := domainIPsUpdates g; GlobalKMS := GlobalKMS g;
     kmsWrites := kmsWrites g; logged := logged g; mkdirs := mkdirs g ++ [p] |}.

(** The state of a process that has not run any of the resolvers. *)
Definition initialGlobals : Globals :=
  {| globalCLIContext := {| JSON := false; Quiet := false; Anonymous := false;
                            Addr := ""; StrictS3Compat := false |};
     loggerModes := {| jsonFlag := false; quietFlag := false; anonFlag := false |};
     globalConfigDir := {| path := "" |}; globalCertsDir := {| path := "" |};
     globalCertsCADir := {| path := "" |}; globalDomainNames := [];
     domainIPsUpdates := []; GlobalKMS := None; kmsWrites := [];
     logged := []; mkdirs := [] |}.

(** ** The monad of start-up code *)

Inductive Outcome (A : Type) : Type :=
| Return (a : A) (g : Globals)
| Exit (err : error) (msg : string) (g : Globals).
Arguments Return {A} a g.
Arguments Exit {A} err msg g.

Definition M (A : Type) : Type := Globals → Outcome A.

#[global] Instance M_ret : MRet M := λ A a g, Return a g.

#[global] Instance M_bind : MBind M := λ A B f m g,
  match m g with
  | Return a g' => f a g'
  | Exit err msg g' => Exit err msg g'
  end.

Definition modify (f : Globals → Globals) : M unit := λ g, Return () (f g).

Definition gets {A : Type} (f : Globals → A) : M A := λ g, Return (f g) g.

Module logger.

(** [logger.Fatal(err, msg, args...)]: print and exit. *)
Definition Fatal {A : Type} (err : error) (msg : string) : M A :=
  λ g, Exit err msg g.

(** [logger.FatalIf(err, msg, args...)]: [Fatal] when [err] is not nil. *)
Definition FatalIf (err : option error) (msg : string) : M unit :=
  match err with
  | Some e => Fatal e msg
  | None => mret ()
  end.

(** [logger.LogIf(ctx, err, ...)]: record [err] when it is not nil. *)
Definition LogIf (err : option error) : M unit :=
  match err with
  | Some e => modify (push_logged e)
  | None => mret ()
  end.

(** [logger.EnableJSON()]: as its caller says (lines 197-198), the json
    flag enables json and quiet modes. *)
Definition EnableJSON : M unit :=
  modify (set_loggerModes (λ m,
    {| jsonFlag := true; quietFlag := true; anonFlag := anonFlag m |})).

Definition EnableQuiet : M unit :=
  modify (set_loggerModes (λ m,
    {| jsonFlag := jsonFlag m; quietFlag := true; anonFlag := anonFlag m |})).

Definition EnableAnonymous : M unit :=
  modify (set_loggerModes (λ m,
    {| jsonFlag := jsonFlag m; quietFlag := quietFlag m; anonFlag := true |})).

End logger.

(** [if cond { body }] *)
Definition when (cond : bool) (body : M unit) : M unit :=
  if cond then body else mret ().

(** Constants of package [cmd] declared outside this file; the directory
    layout of the specification names them. *)
Definition certsDir : string := "certs".
Definition certsCADir : string := "CAs".
Definition publicCertFile : string := "public.crt".
Definition privateKeyFile : string := "private.key".

(** ** Directory options: [newConfigDirFromCtx] and [handleCommonCmdArgs] *)

Section DirectoryResolver.

(** [filepath.Abs] and [filepath.Join] depend on the platform and on the
    working directory. *)
Variable filepath_Abs : string → result string.
Variable filepath_Join : list string → string.
(** What creating a directory (with its parents) answers: nil or an error. *)
Variable mkdirAll : string → option error.
(** [GlobalMinioDefaultPort] and the default providers [defaultConfigDir.Get],
    [defaultCertsDir.Get]. *)
Variable GlobalMinioDefaultPort : string.
Variable defaultConfigDir_Get : unit → string.
Variable defaultCertsDir_Get : unit → string.

(** [mkdirAllIgnorePerm(path)]: the attempt is recorded in [mkdirs]. *)
Definition mkdirAllIgnorePerm (p : string) : M (option error) :=
  modify (push_mkdir p);; mret (mkdirAll p).

Definition newConfigDirFromCtx (ctx : cli.Context) (option : string)
    (getDefaultDir : unit → string) : M (ConfigDir * bool) :=
  '(dir, dirSet) ←
    (if cli.IsSet ctx option then
       mret (cli.String ctx option, true)
     else if cli.GlobalIsSet ctx option then
       let dir := cli.GlobalString ctx option in
       if (dir =? "") || (dir =? getDefaultDir ()) then
         if cli.ParentGlobalIsSet ctx option then
           mret (cli.ParentGlobalString ctx option, true)
         else mret (dir, false)
       else mret (dir, true)
     else
       let dir := getDefaultDir () in
       when (dir =? "")
         (logger.FatalIf (Some errInvalidArgument) (option ++ " option must be provided"));;
       mret (dir, false));
  when (dir =? "")
    (logger.FatalIf (Some "empty directory") (option ++ " directory cannot be empty"));;
  dirAbs ← match filepath_Abs dir with
           | OK d => mret d
           | Err e =>
               logger.Fatal e ("Unable to fetch absolute path for " ++ option ++ "=" ++ dir)
           end;
  err ← mkdirAllIgnorePerm dirAbs;
  logger.FatalIf err ("Unable to create directory specified " ++ option ++ "=" ++ dir);;
  mret ({| path := dirAbs |}, dirSet).

Definition handleCommonCmdArgs (ctx : cli.Context) : M unit :=
  let json := cli.IsSet ctx "json" || cli.GlobalIsSet ctx "json" in
  modify (set_globalCLIContext (λ c,
    {| JSON := json; Quiet := Quiet c; Anonymous := Anonymous c;
       Addr := Addr c; StrictS3Compat := StrictS3Compat c |}));;
  when json logger.EnableJSON;;
  let quiet := cli.IsSet ctx "quiet" || cli.GlobalIsSet ctx "quiet" in
  modify (set_globalCLIContext (λ c,
    {| JSON := JSON c; Quiet := quiet; Anonymous := Anonymous c;
       Addr := Addr c; StrictS3Compat := StrictS3Compat c |}));;
  when quiet logger.EnableQuiet;;
  let anonymous := cli.IsSet ctx "anonymous" || cli.GlobalIsSet ctx "anonymous" in
  modify (set_globalCLIContext (λ c,
    {| JSON := JSON c; Quiet := Quiet c; Anonymous := anonymous;
       Addr := Addr c; StrictS3Compat := StrictS3Compat c |}));;
  when anonymous logger.EnableAnonymous;;
  let addr := cli.GlobalString ctx "address" in
  let addr := if (addr =? "") || (addr =? ":" ++ GlobalMinioDefaultPort)
              then cli.String ctx "address" else addr in
  let strict := negb (cli.IsSet ctx "no-compat" || cli.GlobalIsSet ctx "no-compat") in
  modify (set_globalCLIContext (λ c,
    {| JSON := JSON c; Quiet := Quiet c; Anonymous := Anonymous c;
       Addr := addr; StrictS3Compat := strict |}));;
  '(configDir, configSet) ← newConfigDirFromCtx ctx "config-dir" defaultConfigDir_Get;
  modify (set_globalConfigDir configDir);;
  '(certsDir', certsSet) ← newConfigDirFromCtx ctx "certs-dir" defaultCertsDir_Get;
  modify (set_globalCertsDir certsDir');;
  when (negb certsSet && configSet)
    (configDir ← gets globalConfigDir;
     modify (set_globalCertsDir {| path := filepath_Join [Get configDir; certsDir] |}));;
  certs ← gets globalCertsDir;
  modify (set_globalCertsCADir {| path := filepath_Join [Get certs; certsCADir] |});;
  ca ← gets globalCertsCADir;
  err ← mkdirAllIgnorePerm (Get ca);
  logger.FatalIf err ("Unable to create certs CA directory at " ++ Get ca).

(** What the specification says becomes of the value selected for an
    option: an empty value is fatal; the value is made absolute, which may
    fail fatally; the directory is created, which may fail fatally; the
    absolute path is returned with the flag telling whether the value was
    explicit. *)
Definition useDirectory (option dir : string) (wasExplicit : bool) (g : Globals)
    : Outcome (ConfigDir * bool) :=
  if (dir =? "") then
    Exit "empty directory" (option ++ " directory cannot be empty") g
  else
    match filepath_Abs dir with
    | Err e =>
        Exit e ("Unable to fetch absolute path for " ++ option ++ "=" ++ dir) g
    | OK dirAbs =>
        match mkdirAll dirAbs with
        | Some e =>
            Exit e ("Unable to create directory specified " ++ option ++ "=" ++ dir)
              (push_mkdir dirAbs g)
        | None => Return ({| path := dirAbs |}, wasExplicit) (push_mkdir dirAbs g)
        end
    end.

End DirectoryResolver.


(** ** Environment variables *)

Module env.

(** Modelled from the spec: package [env] is not part of the sources.  The
    environment maps the names that are set to their values; [IsSet] tells
    whether a name is set and [Get] reads it, with a default for a name
    that is not. *)
Definition IsSet (environ : gmap string string) (key : string) : bool :=
  bool_decide (is_Some (environ !! key)).

Definition Get (environ : gmap string string) (key defaultValue : string) : string :=
  default defaultValue (environ !! key).

End env.

Module config.

(** Constants of package [config] (not part of the sources): the variables
    of the specification's interface list, under the names the server's
    diagnostics give them, and the list separator. *)
Definition EnvDomain : string := "MINIO_DOMAIN".
Definition EnvPublicIPs : string := "MINIO_PUBLIC_IPS".
Definition EnvKMSSecretKey : string := "MINIO_KMS_SECRET_KEY".
Definition EnvKMSMasterKey : string := "MINIO_KMS_MASTER_KEY".
Definition EnvKESEndpoint : string := "MINIO_KMS_KES_ENDPOINT".
Definition EnvKESKeyName : string := "MINIO_KMS_KES_KEY_NAME".
Definition EnvKESClientCert : string := "MINIO_KMS_KES_CERT_FILE".
Definition EnvKESClientKey : string := "MINIO_KMS_KES_KEY_FILE".
Definition EnvKESServerCA : string := "MINIO_KMS_KES_CA_PATH".
Definition ValueSeparator : string := ",".

End config.

(** ** Package [encoding/hex] *)

Module hex.

Definition fromHexChar (c : ascii) : option N :=
  let n := N_of_ascii c in
  if (48 <=? n)%N && (n <=? 57)%N then Some (n - 48)%N
  else if (97 <=? n)%N && (n <=? 102)%N then Some (n - 97 + 10)%N
  else if (65 <=? n)%N && (n <=? 70)%N then Some (n - 65 + 10)%N
  else None.

(** [hex.DecodeString]: two digits per byte; an invalid digit is reported
    before an odd length.  The messages leave out the offending byte. *)
Fixpoint DecodeString (s : string) : result (list N) :=
  match s with
  | EmptyString => OK []
  | String p EmptyString =>
      match fromHexChar p with
      | None => Err "encoding/hex: invalid byte"
      | Some _ => Err "encoding/hex: odd length hex string"
      end
  | String p (String q s') =>
      match fromHexChar p, fromHexChar q with
      | Some a, Some b =>
          match DecodeString s' with
          | OK bytes => OK (N.lor (N.shiftl a 4) b :: bytes)
          | Err e => Err e
          end
      | _, _ => Err "encoding/hex: invalid byte"
      end
  end.

End hex.

(** ** Package [os]: file modes *)

Module os.

(** [os.FileMode] is a 32-bit mask; the type bits are those of Go's [os]. *)
Definition FileMode : Type := N.

Definition ModeDir : FileMode := N.shiftl 1 31.
Definition ModeSymlink : FileMode := N.shiftl 1 27.
Definition ModeDevice : FileMode := N.shiftl 1 26.
Definition ModeNamedPipe : FileMode := N.shiftl 1 25.
Definition ModeSocket : FileMode := N.shiftl 1 24.
Definition ModeCharDevice : FileMode := N.shiftl 1 21.
Definition ModeIrregular : FileMode := N.shiftl 1 19.

Definition ModeType : FileMode :=
  N.lor ModeDir (N.lor ModeSymlink (N.lor ModeNamedPipe (N.lor ModeSocket
    (N.lor ModeDevice (N.lor ModeCharDevice ModeIrregular))))).

(** [m.IsRegular()]: [m&ModeType == 0]. *)
Definition IsRegular (m : FileMode) : bool := (N.land m ModeType =? 0)%N.

(** [m.IsDir()]: [m&ModeDir != 0]. *)
Definition IsDir (m : FileMode) : bool := negb (N.land m ModeDir =? 0)%N.

Record FileInfo : Type := {
  Name : string;
  Mode : FileMode;
}.

End os.

(** ** Helpers of package [cmd] declared in other files *)

(** The longest common suffix of two strings, as lists of bytes. *)
Definition lcs2 (a b : list ascii) : list ascii := (max_suffix a b).2.

(** Modelled from the spec: [lcpSuffix] (utils.go is not part of the
    sources) computes the longest common suffix string shared across all the
    strings of the slice; the empty slice has the empty one. *)
Definition lcpSuffix (strs : list string) : string :=
  match strs with
  | [] => ""
  | s :: rest =>
      string_of_list_ascii
        (foldl (λ acc t, lcs2 acc (list_ascii_of_string t)) (list_ascii_of_string s) rest)
  end.

(** [for _, x := range l { body x }] *)
Fixpoint forEach {A : Type} (l : list A) (body : A → M unit) : M unit :=
  match l with
  | [] => mret ()
  | x :: l' => body x;; forEach l' body
  end.

(** A [range] loop that updates a local variable. *)
Fixpoint forEachAcc {A B : Type} (l : list A) (body : B → A → M B) (acc : B) : M B :=
  match l with
  | [] => mret acc
  | x :: l' => acc' ← body acc x; forEachAcc l' body acc'
  end.

(** [%s] of a slice of strings: the elements between brackets, separated by
    spaces. *)
Definition showStrings (l : list string) : string :=
  "[" ++ String.concat " " l ++ "]".

(** ** Environment variables: the blocks of [handleCommonEnvVars] *)

Section EnvVars.

Variable environ : gmap string string.
(** [dns2.IsDomainName], the second result. *)
Variable dns_IsDomainName : string → bool.
(** [net.ParseIP] (nil is [None]) and [net.LookupHost]. *)
Variable net_ParseIP : string → option (list N).
Variable net_LookupHost : string → result (list string).
(** [mustGetLocalIP4()], a function of package [cmd] declared in another
    file: it answers the local addresses or, as its name says, ends the
    process; and [globalEndpoints.Hostnames()]. *)
Variable mustGetLocalIP4 : M (gset string).
Variable globalEndpoints_Hostnames : list string.
(** Whether the constructors of packages [kms] and [crypto] accept their
    input: nil or the error they return. *)
Variable kms_Parse_err : string → option error.
Variable kms_New_err : string → list N → option error.
Variable crypto_ParseKESEndpoints : string → result (list string).
Variable crypto_NewKes_err : KesConfig → option error.

Definition kms_Parse (s : string) : result KMS :=
  match kms_Parse_err s with
  | Some e => Err e
  | None => OK (StaticSecret s)
  end.

Definition kms_New (keyID : string) (key : list N) : result KMS :=
  match kms_New_err keyID key with
  | Some e => Err e
  | None => OK (LegacyMasterKey keyID key)
  end.

Definition crypto_NewKes (cfg : KesConfig) : result KMS :=
  match crypto_NewKes_err cfg with
  | Some e => Err e
  | None => OK (RemoteEndpoint cfg)
  end.

(** [updateDomainIPs] is declared in another file; the call is recorded. *)
Definition updateDomainIPs (endPoints : gset string) : M unit :=
  modify (push_domainIPs endPoints).

(** Lines 264-281: [MINIO_DOMAIN]. *)
Definition handleDomains : M unit :=
  let domains := env.Get environ config.EnvDomain "" in
  when (negb (String.length domains =? 0)%nat)
    (forEach (strings.Split domains config.ValueSeparator) (λ domainName,
       when (negb (dns_IsDomainName domainName))
         (logger.Fatal ("Unknown value `" ++ domainName ++ "`")
            "Invalid MINIO_DOMAIN value in environment variable");;
       modify (set_globalDomainNames (λ names, (names ++ [domainName])%list)));;
     modify (set_globalDomainNames sort.Strings);;
     names ← gets globalDomainNames;
     let lcpSuf := lcpSuffix names in
     forEach names (λ domainName,
       when ((domainName =? lcpSuf) && (1 <? length names)%nat)
         (logger.Fatal ("Overlapping domains `" ++ showStrings names ++ "` not allowed")
            "Invalid MINIO_DOMAIN value in environment variable"))).

(** The body of the loop over [minioEndpoints] (lines 287-299). *)
Definition addEndpoint (domainIPs : gset string) (endpoint : string) : M (gset string) :=
  domainIPs ←
    (if net_ParseIP endpoint is None then
       match net_LookupHost endpoint with
       | Err err =>
           logger.Fatal err
             ("Unable to initialize MinIO server with [" ++ endpoint
              ++ "] invalid entry found in MINIO_PUBLIC_IPS")
       | OK addrs => mret (foldl (λ ips addr, {[addr]} ∪ ips) domainIPs addrs)
       end
     else mret domainIPs);
  mret ({[endpoint]} ∪ domainIPs).

(** Lines 283-309: [MINIO_PUBLIC_IPS]. *)
Definition handlePublicIPs : M unit :=
  let publicIPs := env.Get environ config.EnvPublicIPs "" in
  if negb (String.length publicIPs =? 0)%nat then
    let minioEndpoints := strings.Split publicIPs config.ValueSeparator in
    domainIPs ← forEachAcc minioEndpoints addEndpoint ∅;
    updateDomainIPs domainIPs
  else
    domainIPs ← mustGetLocalIP4;
    let domainIPs := foldl (λ ips host, {[host]} ∪ ips) domainIPs globalEndpoints_Hostnames in
    updateDomainIPs domainIPs.

Definition ambiguous (a b : string) : M unit :=
  logger.Fatal "ambigious KMS configuration"
    ("The environment contains " ++ quoted a ++ " as well as " ++ quoted b).

Definition unableToParseKMS : string :=
  "Unable to parse the KMS secret key inherited from the shell environment".

(** Lines 334-385: the KMS variables. *)
Definition handleKMS : M unit :=
  when (env.IsSet environ config.EnvKMSSecretKey && env.IsSet environ config.EnvKESEndpoint)
    (ambiguous config.EnvKMSSecretKey config.EnvKESEndpoint);;
  (if env.IsSet environ config.EnvKMSSecretKey && env.IsSet environ config.EnvKESEndpoint then
     ambiguous config.EnvKMSSecretKey config.EnvKESEndpoint
   else if env.IsSet environ config.EnvKMSMasterKey && env.IsSet environ config.EnvKESEndpoint then
     ambiguous config.EnvKMSMasterKey config.EnvKESEndpoint
   else mret ());;
  (if env.IsSet environ config.EnvKMSSecretKey then
     match kms_Parse (env.Get environ config.EnvKMSSecretKey "") with
     | Err err => logger.Fatal err unableToParseKMS
     | OK KMS => modify (set_GlobalKMS KMS)
     end
   else if env.IsSet environ config.EnvKMSMasterKey then
     logger.LogIf (Some "legacy KMS configuration");;
     match strings.SplitN (env.Get environ config.EnvKMSMasterKey "") ":" 2 with
     | [v0; v1] =>
         match hex.DecodeString v1 with
         | Err err => logger.Fatal err unableToParseKMS
         | OK secretKey =>
             match kms_New v0 secretKey with
             | Err err => logger.Fatal err unableToParseKMS
             | OK KMS => modify (set_GlobalKMS KMS)
             end
         end
     | _ => logger.Fatal ("invalid " ++ config.EnvKMSMasterKey) unableToParseKMS
     end
   else mret ());;
  when (env.IsSet environ config.EnvKESEndpoint)
    (match crypto_ParseKESEndpoints (env.Get environ config.EnvKESEndpoint "") with
     | Err err =>
         logger.Fatal err
           "Unable to parse the KES endpoints inherited from the shell environment"
     | OK kesEndpoints =>
         caDir ← gets globalCertsCADir;
         match crypto_NewKes
                 {| Enabled := true;
                    Endpoint := kesEndpoints;
                    DefaultKeyID := env.Get environ config.EnvKESKeyName "";
                    CertFile := env.Get environ config.EnvKESClientCert "";
                    KeyFile := env.Get environ config.EnvKESClientKey "";
                    CAPath := env.Get environ config.EnvKESServerCA (Get caDir);
                    KesTransport := customHTTPTransportWithHTTP2 |} with
         | Err err =>
             logger.Fatal err
               "Unable to initialize a connection to KES as specified by the shell environment"
         | OK KMS => modify (set_GlobalKMS KMS)
         end
     end).

(** [x] is one of the addresses the host name [t] resolves to. *)
Definition ResolvesTo (t x : string) : Prop :=
  net_ParseIP t = None ∧ ∃ addrs, net_LookupHost t = OK addrs ∧ x ∈ addrs.

End EnvVars.

(** ** TLS certificates: [getTLSConfig] *)

Section TLS.

Variable filepath_Join : list string → string.
(** [isFile] of package [cmd]: the path names a regular file. *)
Variable isFile : string → bool.
(** [os.Open] (nil or an error), [root.Readdir(-1)] and [os.Stat]. *)
Variable os_Open : string → option error.
Variable Readdir : string → result (list os.FileInfo).
Variable os_Stat : string → result os.FileInfo.
(** [config.ParsePublicCertFile], and the certificate manager of package
    [certs]: [AddCertificate] answers the manager with the pair added, or an
    error, in which case the manager is the one it was given. *)
Variable Certificate : Type.
Variable ParsePublicCertFile : string → result (list Certificate).
Variable Manager : Type.
Variable NewManager : string → string → result Manager.
Variable AddCertificate : Manager → string → string → result Manager.

(** Modelled from the spec: [getPublicCertFile] and [getPrivateKeyFile]
    (config-dir.go is not part of the sources) name the root certificate
    and the root private key, [<certsDir>/public.crt] and
    [<certsDir>/private.key]. *)
Definition getPublicCertFile : M string :=
  dir ← gets globalCertsDir; mret (filepath_Join [Get dir; publicCertFile]).

Definition getPrivateKeyFile : M string :=
  dir ← gets globalCertsDir; mret (filepath_Join [Get dir; privateKeyFile]).

(** The body of the loop over [files] (lines 437-467); [root] is
    [root.Name()]. *)
Definition scanEntry (root : string) (manager : Manager) (file : os.FileInfo) : M Manager :=
  if os.IsRegular (os.Mode file) || (os.Name file =? "CAs")
     || strings.HasPrefix (os.Name file) ".."
  then mret manager
  else
    let resolved :=
      if (N.land (os.Mode file) os.ModeSymlink =? os.ModeSymlink)%N then
        match os_Stat (filepath_Join [root; os.Name file]) with
        | Err _ => None
        | OK file' => if negb (os.IsDir (os.Mode file')) then None else Some file'
        end
      else Some file in
    match resolved with
    | None => mret manager
    | Some file =>
        let certFile := filepath_Join [root; os.Name file; publicCertFile] in
        let keyFile := filepath_Join [root; os.Name file; privateKeyFile] in
        if negb (isFile certFile) || negb (isFile keyFile) then mret manager
        else
          match AddCertificate manager certFile keyFile with
          | Err err =>
              logger.LogIf
                (Some ("Unable to load TLS certificate '" ++ certFile ++ "," ++ keyFile
                       ++ "': " ++ err));;
              mret manager
          | OK manager' => mret manager'
          end
    end.

Definition getTLSConfig
    : M (list Certificate * option Manager * bool * option error) :=
  publicCert ← getPublicCertFile;
  privateKey ← getPrivateKeyFile;
  if negb (isFile publicCert && isFile privateKey) then mret ([], None, false, None)
  else
    match ParsePublicCertFile publicCert with
    | Err err => mret ([], None, false, Some err)
    | OK x509Certs =>
        match NewManager publicCert privateKey with
        | Err err => mret ([], None, false, Some err)
        | OK manager =>
            dir ← gets globalCertsDir;
            let root := Get dir in
            match os_Open root with
            | Some err => mret ([], None, false, Some err)
            | None =>
                match Readdir root with
                | Err err => mret ([], None, false, Some err)
                | OK files =>
                    manager ← forEachAcc files (scanEntry root) manager;
                    mret (x509Certs, Some manager, true, None)
                end
            end
        end
    end.

(** *** The entries the scan leaves out *)

Definition isSymlink (file : os.FileInfo) : Prop :=
  N.land (os.Mode file) os.ModeSymlink = os.ModeSymlink.

(** The entry whose directory the scan looks into: the entry itself, or,
    for a symbolic link, the directory [os.Stat] finds behind it. *)
Inductive Resolves (root : string) (file : os.FileInfo) : os.FileInfo → Prop :=
| resolves_self :
    ¬ isSymlink file → Resolves root file file
| resolves_link (target : os.FileInfo) :
    isSymlink file →
    os_Stat (filepath_Join [root; os.Name file]) = OK target →
    os.IsDir (os.Mode target) = true →
    Resolves root file target.

(** The entries the specification excludes from the scan. *)
Inductive Excluded (root : string) (file : os.FileInfo) : Prop :=
| excluded_regular :
    os.IsRegular (os.Mode file) = true → Excluded root file
| excluded_CAs :
    os.Name file = "CAs" → Excluded root file
| excluded_dotdot :
    strings.HasPrefix (os.Name file) ".." = true → Excluded root file
| excluded_unresolved (err : error) :
    isSymlink file →
    os_Stat (filepath_Join [root; os.Name file]) = Err err →
    Excluded root file
| excluded_not_dir (target : os.FileInfo) :
    isSymlink file →
    os_Stat (filepath_Join [root; os.Name file]) = OK target →
    os.IsDir (os.Mode target) = false →
    Excluded root file
| excluded_no_cert (dir : os.FileInfo) :
    Resolves root file dir →
    isFile (filepath_Join [root; os.Name dir; publicCertFile]) = false →
    Excluded root file
| excluded_no_key (dir : os.FileInfo) :
    Resolves root file dir →
    isFile (filepath_Join [root; os.Name dir; privateKeyFile]) = false →
    Excluded root file.

End TLS.

Arguments scanEntry filepath_Join isFile os_Stat {Manager} AddCertificate.
Arguments getTLSConfig filepath_Join isFile os_Open Readdir os_Stat
  {Certificate} ParsePublicCertFile {Manager} NewManager AddCertificate.

(** ** Object layer features: [verifyObjectLayerFeatures] *)

(** What the function asks of an [ObjectLayer]. *)
Record ObjectLayer : Type := {
  IsEncryptionSupported : bool;
  IsCompressionSupported : bool;
}.

(** [GlobalKMS != nil] *)
Definition kmsConfigured (g : Globals) : bool :=
  match GlobalKMS g with
  | Some _ => true
  | None => false
  end.

Section ObjectLayerFeatures.

(** [GlobalGatewaySSE.IsSet()] and [globalCompressConfig.Enabled], held by
    variables this file does not assign.  The mutex around the second is
    of no consequence on the start-up path. *)
Variable GlobalGatewaySSE_IsSet : bool.
Variable globalCompressConfig_Enabled : bool.

Definition verifyObjectLayerFeatures (name : string) (objAPI : ObjectLayer) : M unit :=
  configured ← gets kmsConfigured;
  when (configured && negb (IsEncryptionSupported objAPI))
    (logger.Fatal errInvalidArgument
       ("Encryption support is requested but '" ++ name
        ++ "' does not support encryption"));;
  when (strings.HasPrefix name "gateway")
    (configured ← gets kmsConfigured;
     when (GlobalGatewaySSE_IsSet && negb configured)
       (logger.Fatal "MINIO_GATEWAY_SSE set but KMS is not configured"
          "Unable to start gateway with SSE"));;
  when (globalCompressConfig_Enabled && negb (IsCompressionSupported objAPI))
    (logger.Fatal errInvalidArgument
       ("Compression support is requested but '" ++ name
        ++ "' does not support compression")).

End ObjectLayerFeatures.

(** ** Environment variables: [handleCommonEnvVars] as a whole *)

(** [auth.Credentials], as far as this file is concerned. *)
Record Credentials : Type := {
  AccessKey : string;
  SecretKey : string;
}.

(** The process-wide variables [handleCommonEnvVars] assigns that [Globals]
    does not hold; they are threaded beside it. *)
Record EnvGlobals : Type := {
  globalBrowserEnabled : bool;
  globalFSOSync : bool;
  globalInplaceUpdateDisabled : bool;
  globalActiveCred : Credentials;
}.

(** More constants of package [config], under the names the server's
    diagnostics give the variables. *)
Definition EnvBrowser : string := "MINIO_BROWSER".
Definition EnvFSOSync : string := "MINIO_FS_OSYNC".
Definition EnvUpdate : string := "MINIO_UPDATE".
Definition EnvAccessKey : string := "MINIO_ACCESS_KEY".
Definition EnvSecretKey : string := "MINIO_SECRET_KEY".
Definition EnvRootUser : string := "MINIO_ROOT_USER".
Definition EnvRootPassword : string := "MINIO_ROOT_PASSWORD".
Definition EnableOn : string := "on".
Definition EnableOff : string := "off".

(** The user-facing errors [config.ErrInvalid...(err)] are built around
    their cause; their wording is declared in package [config], and the
    cause is what is kept of them. *)
Definition config_ErrInvalidWormValue (err : error) : error := err.
Definition config_ErrInvalidBrowserValue (err : error) : error := err.
Definition config_ErrInvalidFSOSyncValue (err : error) : error := err.
Definition config_ErrInvalidCredentials (err : error) : error := err.

Definition wormRemoved : string :=
  "global MINIO_WORM support is removed, please downgrade your server or migrate to https://github.com/minio/minio/tree/master/docs/retention".

Definition invalidCredentials : string :=
  "Unable to validate credentials inherited from the shell environment".

Section StartupEnv.

Variable environ : gmap string string.
Variable dns_IsDomainName : string → bool.
Variable net_ParseIP : string → option (list N).
Variable net_LookupHost : string → result (list string).
Variable mustGetLocalIP4 : M (gset string).
Variable globalEndpoints_Hostnames : list string.
Variable kms_Parse_err : string → option error.
Variable kms_New_err : string → list N → option error.
Variable crypto_ParseKESEndpoints : string → result (list string).
Variable crypto_NewKes_err : KesConfig → option error.
(** [config.LookupWorm()], [config.ParseBool], [strings.EqualFold] and
    [auth.CreateCredentials]. *)
Variable config_LookupWorm : result bool.
Variable config_ParseBool : string → result bool.
Variable strings_EqualFold : string → string → bool.
Variable auth_CreateCredentials : string → string → result Credentials.

(** Lines 316-323 and 325-332: a pair of credential variables. *)
Definition credentialsFrom (user password : string) (cred : Credentials)
    : M Credentials :=
  if env.IsSet environ user || env.IsSet environ password then
    match auth_CreateCredentials (env.Get environ user "")
            (env.Get environ password "") with
    | Err err => logger.Fatal (config_ErrInvalidCredentials err) invalidCredentials
    | OK cred' => mret cred'
    end
  else mret cred.

Definition handleCommonEnvVars (vars : EnvGlobals) : M EnvGlobals :=
  wormEnabled ← match config_LookupWorm with
                | Err err =>
                    logger.Fatal (config_ErrInvalidWormValue err)
                      "Invalid worm configuration"
                | OK enabled => mret enabled
                end;
  when wormEnabled (logger.Fatal "WORM is deprecated" wormRemoved);;
  browserEnabled ← match config_ParseBool (env.Get environ EnvBrowser EnableOn) with
                   | Err err =>
                       logger.Fatal (config_ErrInvalidBrowserValue err)
                         "Invalid MINIO_BROWSER value in environment variable"
                   | OK enabled => mret enabled
                   end;
  fsOSync ← match config_ParseBool (env.Get environ EnvFSOSync EnableOff) with
            | Err err =>
                logger.Fatal (config_ErrInvalidFSOSyncValue err)
                  "Invalid MINIO_FS_OSYNC value in environment variable"
            | OK enabled => mret enabled
            end;
  handleDomains environ dns_IsDomainName;;
  handlePublicIPs environ net_ParseIP net_LookupHost mustGetLocalIP4 globalEndpoints_Hostnames;;
  let inplaceUpdateDisabled :=
    strings_EqualFold (env.Get environ EnvUpdate EnableOn) EnableOff in
  cred ← credentialsFrom EnvAccessKey EnvSecretKey (globalActiveCred vars);
  cred ← credentialsFrom EnvRootUser EnvRootPassword cred;
  handleKMS environ kms_Parse_err kms_New_err crypto_ParseKESEndpoints crypto_NewKes_err;;
  mret {| globalBrowserEnabled := browserEnabled;
          globalFSOSync := fsOSync;
          globalInplaceUpdateDisabled := inplaceUpdateDisabled;
          globalActiveCred := cred |}.

End StartupEnv.

(** * Specification vocabulary and example inputs *)

Open Scope list_scope.

(** The order [sort.Strings] sorts by. *)
Definition string_le (a b : string) : Prop := String.leb a b = true.

(** [k] is a suffix of [s]. *)
Definition HasSuffix (s k : string) : Prop :=
  list_ascii_of_string k `suffix_of` list_ascii_of_string s.

(** The context of a command whose own scope has the option [name] set to
    [local] (when given), with [inherited] set for it on the enclosing scope
    and nothing set further up. *)
Definition exampleContext (name : string) (local : option string) (inherited : string)
    : cli.Context :=
  {| cli.IsSet := λ o, bool_decide (o = name) && bool_decide (is_Some local);
     cli.String := λ o, if bool_decide (o = name) then default inherited local else "";
     cli.GlobalIsSet := λ o, bool_decide (o = name);
     cli.GlobalString := λ o, if bool_decide (o = name) then inherited else "";
     cli.ParentGlobalIsSet := λ _, false;
     cli.ParentGlobalString := λ _, "" |}.

(** Directory entries as [Readdir] reports them: a regular file (mode
    0644) and a directory (mode 0755). *)
Definition regularFile (name : string) : os.FileInfo :=
  {| os.Name := name; os.Mode := 420%N |}.

Definition directory (name : string) : os.FileInfo :=
  {| os.Name := name; os.Mode := N.lor os.ModeDir 493%N |}.

(** ** A certs directory with two domain directories

    [/certs] holds the root pair, [CAs], [foo.com] with both files and
    [bar.com] with only [public.crt]. *)

Definition exampleJoin (elem : list string) : string := String.concat "/" elem.

Definition exampleIsFile (p : string) : bool :=
  bool_decide (p ∈ ["/certs/public.crt"; "/certs/private.key";
                    "/certs/foo.com/public.crt"; "/certs/foo.com/private.key";
                    "/certs/bar.com/public.crt"]).

Definition exampleReaddir (dir : string) : result (list os.FileInfo) :=
  if (dir =? "/certs")%string then
    OK [regularFile "public.crt"; regularFile "private.key"; directory "CAs";
        directory "foo.com"; directory "bar.com"]
  else Err "not a directory".

Definition exampleStat (p : string) : result os.FileInfo :=
  Err "no such file or directory".

Definition exampleParse (p : string) : result (list string) := OK [p].

(** Modelled from the spec: the certificate manager (package [certs] is not
    part of the sources) aggregates the certificate/key pairs given to it,
    the root pair first. *)
Definition exampleNewManager (certFile keyFile : string)
    : result (list (string * string)) :=
  OK [(certFile, keyFile)].

Definition exampleAddCertificate (manager : list (string * string))
    (certFile keyFile : string) : result (list (string * string)) :=
  OK (manager ++ [(certFile, keyFile)]).

(** A manager that refuses the pair of [foo.com]. *)
Definition exampleAddRefusing (manager : list (string * string))
    (certFile keyFile : string) : result (list (string * string)) :=
  if (certFile =? "/certs/foo.com/public.crt")%string
  then Err "tls: failed to find any PEM data in certificate input"
  else OK (manager ++ [(certFile, keyFile)]).

Definition exampleGlobals : Globals :=
  set_globalCertsDir {| path := "/certs" |} initialGlobals.

Definition exampleLoad
    : Outcome (list string * option (list (string * string)) * bool * option error) :=
  getTLSConfig exampleJoin exampleIsFile (λ _, None) exampleReaddir exampleStat
    exampleParse exampleNewManager exampleAddCertificate exampleGlobals.

(** An environment naming one address and one host. *)
Definition exampleParseIP (s : string) : option (list N) :=
  if (s =? "10.0.0.1")%string then Some [10; 0; 0; 1]%N else None.

Definition exampleLookupHost (host : string) : result (list string) :=
  if (host =? "minio.example.com")%string then OK ["192.168.1.5"]
  else Err "no such host".

Definition examplePublish : M unit :=
  handlePublicIPs {[config.EnvPublicIPs := "10.0.0.1,minio.example.com"]}
    exampleParseIP exampleLookupHost (mret ∅) [].

(** ** Further vocabulary and example inputs *)

(** The process-wide state an outcome ends in. *)
Definition stateOf {A : Type} (r : Outcome A) : Globals :=
  match r with
  | Return _ g => g
  | Exit _ _ g => g
  end.

(** Paths that are absolute already, and directories that can be created. *)
Definition exampleAbs (p : string) : result string := OK p.
Definition exampleMkdirAll (p : string) : option error := None.

(** The characters [fromHexChar] accepts. *)
Definition isHexDigit (c : ascii) : Prop := is_Some (hex.fromHexChar c).

(** The error logged for [MINIO_KMS_MASTER_KEY], and the separator of its
    value. *)
Definition legacyWarning : error := "legacy KMS configuration".

Definition colon : ascii := ascii_of_nat 58.

(** An environment with a secret key and a KES endpoint. *)
Definition exampleKMSEnv : gmap string string :=
  <[config.EnvKMSSecretKey := "my-key"]>
    {[config.EnvKESEndpoint := "https://kes:7373"]}.

(** Switches, credentials and the rest of an environment, for examples. *)
Definition exampleParseBool (s : string) : result bool :=
  if (s =? "on")%string then OK true
  else if (s =? "off")%string then OK false
  else Err "invalid boolean".

Definition exampleCreateCredentials (accessKey secretKey : string)
    : result Credentials :=
  if (accessKey =? "")%string || (secretKey =? "")%string
  then Err "invalid credentials"
  else OK {| AccessKey := accessKey; SecretKey := secretKey |}.

Definition exampleStartEnv (environ : gmap string string) (worm : result bool)
    : EnvGlobals → M EnvGlobals :=
  handleCommonEnvVars environ (λ _, true) exampleParseIP exampleLookupHost (mret ∅) []
    (λ _, None) (λ _ _, None) (λ s, OK [s]) (λ _, None)
    worm exampleParseBool String.eqb exampleCreateCredentials.

Definition exampleVars : EnvGlobals :=
  {| globalBrowserEnabled := false; globalFSOSync := false;
     globalInplaceUpdateDisabled := false;
     globalActiveCred := {| AccessKey := "minioadmin"; SecretKey := "minioadmin" |} |}.

(** The state after logging [msgs], oldest first. *)
Definition logging (msgs : list error) (g : Globals) : Globals :=
  foldl (λ g msg, push_logged msg g) g msgs.

(** * Properties *)

(** Unfold the monad's operations in the goal. *)
Ltac run :=
  cbv beta iota zeta delta
    [mbind M_bind mret M_ret modify gets when
     logger.Fatal logger.FatalIf logger.LogIf].

(** ** KMS selection *)

Section KMSProperties.

Variable environ : gmap string string.
Variable kms_Parse_err : string → option error.
Variable kms_New_err : string → list N → option error.
Variable crypto_ParseKESEndpoints : string → result (list string).
Variable crypto_NewKes_err : KesConfig → option error.

Let resolveKMS : M unit :=
  handleKMS environ kms_Parse_err kms_New_err crypto_ParseKESEndpoints crypto_NewKes_err.

Let secretKey := env.IsSet environ config.EnvKMSSecretKey.
Let masterKey := env.IsSet environ config.EnvKMSMasterKey.
Let kesEndpoint := env.IsSet environ config.EnvKESEndpoint.

(** C1.  If the secret key and the KES endpoint are both set, or the legacy
    master key and the KES endpoint are both set, KMS resolution exits with
    the ambiguous-configuration error.  A run that does not exit assigns
    [GlobalKMS] at most once, and produces exactly one of: a static secret
    (secret key set, endpoint not), a legacy master key (only the master key
    set), a remote endpoint (only the endpoint set), or nothing at all (none
    of the three set, state untouched). *)
Theorem kms_resolution (g : Globals) :
  (secretKey && kesEndpoint = true ∨ masterKey && kesEndpoint = true →
   ∃ msg, resolveKMS g = Exit "ambigious KMS configuration" msg g)
  ∧
  (∀ g', resolveKMS g = Return () g' →
     (secretKey = true ∧ kesEndpoint = false ∧
      let key := env.Get environ config.EnvKMSSecretKey "" in
      kms_Parse_err key = None
      ∧ kmsWrites g' = kmsWrites g ++ [StaticSecret key]
      ∧ GlobalKMS g' = Some (StaticSecret key))
     ∨ (secretKey = false ∧ masterKey = true ∧ kesEndpoint = false ∧
        ∃ id hexKey rawKey,
          strings.SplitN (env.Get environ config.EnvKMSMasterKey "") ":" 2 = [id; hexKey]
          ∧ hex.DecodeString hexKey = OK rawKey
          ∧ kmsWrites g' = kmsWrites g ++ [LegacyMasterKey id rawKey]
          ∧ GlobalKMS g' = Some (LegacyMasterKey id rawKey)
          ∧ logged g' = logged g ++ ["legacy KMS configuration"])
     ∨ (secretKey = false ∧ masterKey = false ∧ kesEndpoint = true ∧
        ∃ urls cfg,
          crypto_ParseKESEndpoints (env.Get environ config.EnvKESEndpoint "") = OK urls
          ∧ Endpoint cfg = urls
          ∧ CAPath cfg = env.Get environ config.EnvKESServerCA (Get (globalCertsCADir g))
          ∧ kmsWrites g' = kmsWrites g ++ [RemoteEndpoint cfg]
          ∧ GlobalKMS g' = Some (RemoteEndpoint cfg))
     ∨ (secretKey = false ∧ masterKey = false ∧ kesEndpoint = false ∧ g' = g)).
Proof.
  subst resolveKMS secretKey masterKey kesEndpoint.
  unfold handleKMS, ambiguous, kms_Parse, kms_New, crypto_NewKes, strings.SplitN.
  destruct (env.IsSet environ config.EnvKMSSecretKey) eqn:Hs;
    destruct (env.IsSet environ config.EnvKMSMasterKey) eqn:Hm;
    destruct (env.IsSet environ config.EnvKESEndpoint) eqn:Hk; run; simpl.
  all: split; [intros [?|?]; try discriminate; eauto|]; try discriminate.
  all: intros g'.
  - destruct (kms_Parse_err _) eqn:Hp; [discriminate|].
    intros [= <-]. left. simpl. auto.
  - destruct (kms_Parse_err _) eqn:Hp; [discriminate|].
    intros [= <-]. left. simpl. auto.
  - destruct (strings.genSplit _ _ _ _ _) as [|v0 [|v1 [|? ?]]] eqn:Hv; try discriminate.
    destruct (hex.DecodeString v1) as [rawKey|] eqn:Hh; [|discriminate].
    destruct (kms_New_err v0 rawKey) eqn:Hn; [discriminate|].
    intros [= <-]. right. left. repeat split; try reflexivity.
    exists v0, v1, rawKey. repeat split; auto.
  - destruct (crypto_ParseKESEndpoints _) as [urls|] eqn:Hu; [|discriminate].
    destruct (crypto_NewKes_err _) eqn:Hn; [discriminate|].
    intros [= <-]. right. right. left. repeat split; try reflexivity.
    eexists urls, _. repeat split; reflexivity.
  - intros [= <-]. right. right. right. auto.
Qed.

End KMSProperties.

(** Both the secret key and the endpoint set: the run exits. *)
Lemma kms_resolution_witness :
  ∃ msg,
    handleKMS
      (<[config.EnvKMSSecretKey := "my-key"]> {[config.EnvKESEndpoint := "https://kes:7373"]})
      (λ _, None) (λ _ _, None) (λ s, OK [s]) (λ _, None) initialGlobals
    = Exit "ambigious KMS configuration" msg initialGlobals.
Proof.
  apply (proj1 (kms_resolution _ _ _ _ _ initialGlobals)).
  left. vm_compute. reflexivity.
Defined.

(** ** Sorting and the longest common suffix *)

Lemma insert_perm (x : string) (l : list string) :
  Permutation (sort.insert x l) (x :: l).
Proof.
  induction l as [|y l IH]; simpl; [reflexivity|].
  destruct (String.leb x y); [reflexivity|].
  rewrite IH. apply perm_swap.
Qed.

Lemma Strings_perm (l : list string) : Permutation (sort.Strings l) l.
Proof.
  unfold sort.Strings.
  induction l as [|x l IH]; simpl; [reflexivity|].
  rewrite insert_perm. by constructor.
Qed.

Lemma insert_sorted (x : string) (l : list string) :
  Sorted string_le l → Sorted string_le (sort.insert x l).
Proof.
  induction 1 as [|y l Hl IH Hy]; simpl; [repeat constructor|].
  destruct (String.leb x y) eqn:Hxy.
  - constructor; [by constructor|]. by constructor.
  - assert (string_le y x) as Hyx.
    { destruct (String.leb_total x y) as [H|H]; [congruence|exact H]. }
    constructor; [exact IH|].
    destruct l as [|z l]; simpl; [by constructor|].
    destruct (String.leb x z); constructor; auto.
    by inversion Hy.
Qed.

Lemma Strings_sorted (l : list string) : Sorted string_le (sort.Strings l).
Proof.
  unfold sort.Strings.
  induction l as [|x l IH]; simpl; [constructor|].
  by apply insert_sorted.
Qed.

Lemma foldl_lcs2_acc (acc : list ascii) (rest : list string) :
  foldl (λ acc t, lcs2 acc (list_ascii_of_string t)) acc rest `suffix_of` acc.
Proof.
  revert acc. induction rest as [|t rest IH]; intros acc; simpl; [done|].
  etrans; [apply IH|]. apply max_suffix_fst_suffix.
Qed.

Lemma foldl_lcs2_each (acc : list ascii) (rest : list string) (t : string) :
  t ∈ rest →
  foldl (λ acc t, lcs2 acc (list_ascii_of_string t)) acc rest
    `suffix_of` list_ascii_of_string t.
Proof.
  revert acc. induction rest as [|u rest IH]; intros acc Hin; simpl.
  - by apply elem_of_nil in Hin.
  - apply elem_of_cons in Hin as [->|Hin]; [|by apply IH].
    etrans; [apply foldl_lcs2_acc|]. apply max_suffix_snd_suffix.
Qed.

Lemma foldl_lcs2_max (k acc : list ascii) (rest : list string) :
  k `suffix_of` acc →
  (∀ t, t ∈ rest → k `suffix_of` list_ascii_of_string t) →
  k `suffix_of` foldl (λ acc t, lcs2 acc (list_ascii_of_string t)) acc rest.
Proof.
  revert acc. induction rest as [|u rest IH]; intros acc Hacc Hall; simpl; [done|].
  apply IH.
  - apply max_suffix_max; [done|]. apply Hall. by left.
  - intros t Ht. apply Hall. by right.
Qed.

(** [lcpSuffix] is a suffix of every string of the slice... *)
Lemma lcpSuffix_common (strs : list string) (s : string) :
  s ∈ strs → HasSuffix s (lcpSuffix strs).
Proof.
  unfold HasSuffix, lcpSuffix. destruct strs as [|s0 rest].
  - intros H. by apply elem_of_nil in H.
  - rewrite list_ascii_of_string_of_list_ascii.
    intros [->|Hin]%elem_of_cons.
    + apply foldl_lcs2_acc.
    + by apply foldl_lcs2_each.
Qed.

(** ... and the longest one: every common suffix is a suffix of it. *)
Lemma lcpSuffix_longest (strs : list string) (k : string) :
  strs ≠ [] → (∀ s, s ∈ strs → HasSuffix s k) → HasSuffix (lcpSuffix strs) k.
Proof.
  unfold HasSuffix, lcpSuffix. destruct strs as [|s0 rest]; [done|].
  intros _ Hall. rewrite list_ascii_of_string_of_list_ascii.
  apply foldl_lcs2_max.
  - apply Hall. by left.
  - intros t Ht. apply Hall. by right.
Qed.

(** ** Domain names *)

Section DomainProperties.

Variable environ : gmap string string.
Variable dns_IsDomainName : string → bool.

Lemma validate_loop (doms : list string) (g : Globals) :
  Forall (λ d, dns_IsDomainName d = true) doms →
  forEach doms (λ domainName,
    when (negb (dns_IsDomainName domainName))
      (logger.Fatal ("Unknown value `" ++ domainName ++ "`")%string
         "Invalid MINIO_DOMAIN value in environment variable");;
    modify (set_globalDomainNames (λ names, names ++ [domainName]))) g
  = Return () (set_globalDomainNames (λ names, names ++ doms) g).
Proof.
  intros Hall. revert g.
  induction Hall as [|d doms Hd Hall IH]; intros g; simpl.
  - destruct g. unfold set_globalDomainNames; simpl. by rewrite app_nil_r.
  - run. rewrite Hd. simpl.
    etrans; [exact (IH _)|].
    destruct g. unfold set_globalDomainNames; simpl.
    by rewrite <- app_assoc.
Qed.

Lemma overlap_loop (names : list string) (lcpSuf : string) (many : bool)
    (err : error) (msg : string) (g : Globals) :
  forEach names (λ domainName,
    when ((domainName =? lcpSuf)%string && many) (logger.Fatal err msg)) g
  = if existsb (λ d, (d =? lcpSuf)%string) names && many
    then Exit err msg g else Return () g.
Proof.
  induction names as [|d names IH]; simpl; [done|].
  run. destruct (d =? lcpSuf)%string, many; simpl; try done.
  all: etrans; [exact IH|]; by rewrite ?andb_false_r.
Qed.

Lemma existsb_eqb_elem_of (x : string) (l : list string) :
  existsb (λ d, (d =? x)%string) l = true ↔ x ∈ l.
Proof.
  rewrite existsb_exists. split.
  - intros (d & Hd & ->%String.eqb_eq). by apply list_elem_of_In.
  - intros Hin. exists x. split; [by apply list_elem_of_In|apply String.eqb_refl].
Qed.

Lemma genSplit_nonempty (sep : string) (n skip : nat) (acc s : string) :
  strings.genSplit sep n skip acc s ≠ [].
Proof.
  revert n skip acc. induction s as [|c s IH]; intros n skip acc; simpl; [done|].
  destruct skip; [|apply IH].
  destruct n; [apply IH|].
  match goal with |- (if ?b then _ else _) ≠ _ => destruct b end; [done|apply IH].
Qed.

Let validate : M unit := handleDomains environ dns_IsDomainName.

Lemma handleDomains_run (g : Globals) :
  let domains := env.Get environ config.EnvDomain "" in
  let given := strings.Split domains config.ValueSeparator in
  let names := sort.Strings (globalDomainNames g ++ given) in
  domains ≠ "" →
  Forall (λ d, dns_IsDomainName d = true) given →
  validate g =
    if existsb (λ d, (d =? lcpSuffix names)%string) names && (1 <? length names)%nat
    then Exit ("Overlapping domains `" ++ showStrings names ++ "` not allowed")%string
              "Invalid MINIO_DOMAIN value in environment variable"
              (set_globalDomainNames (λ _, names) g)
    else Return () (set_globalDomainNames (λ _, names) g).
Proof.
  intros domains given names Hne Hvalid.
  subst validate. unfold handleDomains. fold domains. fold given.
  assert (negb (String.length domains =? 0)%nat = true) as ->.
  { destruct domains; [done|reflexivity]. }
  unfold when at 1.
  unfold mbind at 1, M_bind at 1. rewrite (validate_loop given g Hvalid).
  unfold mbind at 1, M_bind at 1, modify at 1.
  unfold mbind at 1, M_bind at 1, gets at 1.
  cbv zeta. rewrite overlap_loop. reflexivity.
Qed.

(** C2.  For a non-empty [MINIO_DOMAIN] whose entries are all valid domain
    names, the validator sorts the names, computes the longest common suffix
    of the whole sorted set, and exits with the overlap error if and only if
    that suffix is itself one of the names and there is more than one name;
    otherwise it returns with the sorted names stored.  So
    [eu.example.com,example.com] is refused and
    [a.example.com,b.example.com] is accepted, in sorted order. *)
Theorem domain_overlap (g : Globals) :
  let domains := env.Get environ config.EnvDomain "" in
  let given := strings.Split domains config.ValueSeparator in
  let names := sort.Strings (globalDomainNames g ++ given) in
  let overlapping := lcpSuffix names ∈ names ∧ 1 < length names in
  domains ≠ "" →
  Forall (λ d, dns_IsDomainName d = true) given →
  (Sorted string_le names ∧ Permutation names (globalDomainNames g ++ given))
  ∧ ((∀ s, s ∈ names → HasSuffix s (lcpSuffix names))
     ∧ (∀ k, (∀ s, s ∈ names → HasSuffix s k) → HasSuffix (lcpSuffix names) k))
  ∧ (overlapping →
     validate g =
       Exit ("Overlapping domains `" ++ showStrings names ++ "` not allowed")%string
            "Invalid MINIO_DOMAIN value in environment variable"
            (set_globalDomainNames (λ _, names) g))
  ∧ (¬ overlapping →
     validate g = Return () (set_globalDomainNames (λ _, names) g))
  ∧ ((∃ err msg g', validate g = Exit err msg g') ↔ overlapping)
  ∧ handleDomains {[config.EnvDomain := "eu.example.com,example.com"]} (λ _, true)
      initialGlobals
    = Exit "Overlapping domains `[eu.example.com example.com]` not allowed"
           "Invalid MINIO_DOMAIN value in environment variable"
           (set_globalDomainNames (λ _, ["eu.example.com"; "example.com"]) initialGlobals)
  ∧ handleDomains {[config.EnvDomain := "a.example.com,b.example.com"]} (λ _, true)
      initialGlobals
    = Return ()
        (set_globalDomainNames (λ _, ["a.example.com"; "b.example.com"]) initialGlobals).
Proof.
  intros domains given names overlapping Hne Hvalid.
  pose proof (handleDomains_run g Hne Hvalid) as Hrun.
  fold domains given names in Hrun.
  assert (names ≠ []) as Hnames.
  { intros Hnil.
    assert (Permutation names (globalDomainNames g ++ given)) as Hp
      by apply Strings_perm.
    rewrite Hnil in Hp. apply Permutation_nil in Hp.
    apply app_eq_nil in Hp as [_ Hg]. by apply genSplit_nonempty in Hg. }
  assert (existsb (λ d, (d =? lcpSuffix names)%string) names && (1 <? length names)%nat = true
          ↔ overlapping) as Hiff.
  { unfold overlapping.
    rewrite andb_true_iff, existsb_eqb_elem_of, Nat.ltb_lt. done. }
  split; [split; [apply Strings_sorted|apply Strings_perm]|].
  split; [split; [intros s; apply lcpSuffix_common|
                  intros k; by apply lcpSuffix_longest]|].
  split; [|split; [|split; [|split]]].
  - intros Ho. apply Hiff in Ho. by rewrite Hrun, Ho.
  - intros Ho. rewrite Hrun.
    destruct (existsb _ _ && _) eqn:Hb; [|done].
    exfalso. apply Ho, Hiff. done.
  - split.
    + intros (err & msg & g' & He). rewrite Hrun in He.
      destruct (existsb _ _ && _) eqn:Hb; [by apply Hiff|discriminate].
    + intros Ho. apply Hiff in Ho. rewrite Hrun, Ho. eauto.
  - vm_compute. reflexivity.
  - vm_compute. reflexivity.
Qed.

End DomainProperties.

(** Two sibling domains given in decreasing order are accepted and stored
    in increasing order. *)
Lemma domain_overlap_witness :
  handleDomains {[config.EnvDomain := "b.example.com,a.example.com"]} (λ _, true)
    initialGlobals
  = Return ()
      (set_globalDomainNames (λ _, ["a.example.com"; "b.example.com"]) initialGlobals).
Proof.
  pose proof (domain_overlap {[config.EnvDomain := "b.example.com,a.example.com"]}
                (λ _, true) initialGlobals) as H.
  cbv zeta in H.
  destruct H as (_ & _ & _ & Hok & _).
  - vm_compute. discriminate.
  - vm_compute. repeat constructor.
  - rewrite Hok; [vm_compute; reflexivity|].
    vm_compute. intros [Hin _].
    apply list_elem_of_In in Hin. simpl in Hin.
    destruct Hin as [H|[H|[]]]; discriminate H.
Defined.

(** ** Directory options *)

Section DirectoryProperties.

Variable filepath_Abs : string → result string.
Variable filepath_Join : list string → string.
Variable mkdirAll : string → option error.
Variable GlobalMinioDefaultPort : string.
Variable defaultConfigDir_Get : unit → string.
Variable defaultCertsDir_Get : unit → string.

Let resolve := newConfigDirFromCtx filepath_Abs mkdirAll.
Let selected := useDirectory filepath_Abs mkdirAll.

Lemma resolve_unfold (ctx : cli.Context) (option : string)
    (getDefaultDir : unit → string) (g : Globals) :
  resolve ctx option getDefaultDir g =
    if cli.IsSet ctx option then selected option (cli.String ctx option) true g
    else if cli.GlobalIsSet ctx option then
      let dir := cli.GlobalString ctx option in
      if (dir =? "")%string || (dir =? getDefaultDir ())%string then
        if cli.ParentGlobalIsSet ctx option
        then selected option (cli.ParentGlobalString ctx option) true g
        else selected option dir false g
      else selected option dir true g
    else
      if (getDefaultDir () =? "")%string
      then Exit errInvalidArgument (option ++ " option must be provided")%string g
      else selected option (getDefaultDir ()) false g.
Proof.
  subst resolve. unfold newConfigDirFromCtx, selected, useDirectory, mkdirAllIgnorePerm.
  destruct (cli.IsSet ctx option); [|destruct (cli.GlobalIsSet ctx option)]; cbv zeta.
  - run. destruct (_ =? _)%string; [done|].
    destruct (filepath_Abs _); [|done]. by destruct (mkdirAll _).
  - destruct (_ || _); [destruct (cli.ParentGlobalIsSet ctx option)|]; run.
    all: destruct (_ =? "")%string; [done|].
    all: destruct (filepath_Abs _); [|done]; by destruct (mkdirAll _).
  - run. destruct (getDefaultDir () =? "")%string eqn:He; [done|].
    rewrite He. destruct (filepath_Abs _); [|done]. by destruct (mkdirAll _).
Qed.

(** C3.  A value set on the command's own scope wins over every other
    source.  Otherwise a value set on the enclosing scope is used; when it is
    empty or equal to the default provider's output it is not explicit, and
    the parent's enclosing scope is consulted (its value, when set, is used
    as explicit).  Otherwise the default provider's output is used, and an
    empty default is fatal with "option must be provided".  Local "/a" over
    parent "/b" with default "/b" gives "/a", explicit; no local value with
    parent "/b" equal to the default gives "/b", not explicit. *)
Theorem directory_precedence (ctx : cli.Context) (option : string)
    (getDefaultDir : unit → string) (g : Globals) :
  let r := resolve ctx option getDefaultDir g in
  let inherited := cli.GlobalString ctx option in
  let dflt := getDefaultDir () in
  (cli.IsSet ctx option = true → r = selected option (cli.String ctx option) true g)
  ∧ (cli.IsSet ctx option = false → cli.GlobalIsSet ctx option = true →
       (inherited ≠ "" → inherited ≠ dflt → r = selected option inherited true g)
       ∧ (inherited = "" ∨ inherited = dflt →
            (cli.ParentGlobalIsSet ctx option = false →
               r = selected option inherited false g)
            ∧ (cli.ParentGlobalIsSet ctx option = true →
                 r = selected option (cli.ParentGlobalString ctx option) true g)))
  ∧ (cli.IsSet ctx option = false → cli.GlobalIsSet ctx option = false →
       (dflt ≠ "" → r = selected option dflt false g)
       ∧ (dflt = "" →
            r = Exit errInvalidArgument (option ++ " option must be provided")%string g))
  ∧ newConfigDirFromCtx OK (λ _, None) (exampleContext "certs-dir" (Some "/a") "/b")
      "certs-dir" (λ _, "/b") initialGlobals
    = Return ({| path := "/a" |}, true) (push_mkdir "/a" initialGlobals)
  ∧ newConfigDirFromCtx OK (λ _, None) (exampleContext "certs-dir" None "/b")
      "certs-dir" (λ _, "/b") initialGlobals
    = Return ({| path := "/b" |}, false) (push_mkdir "/b" initialGlobals).
Proof.
  intros r inherited dflt. subst r. rewrite resolve_unfold. cbv zeta.
  subst inherited dflt.
  split; [|split; [|split; [|split]]].
  - by intros ->.
  - intros -> ->. split.
    + intros H1%String.eqb_neq H2%String.eqb_neq. by rewrite H1, H2.
    + intros Hd.
      assert ((cli.GlobalString ctx option =? "")%string
              || (cli.GlobalString ctx option =? getDefaultDir ())%string = true) as ->.
      { destruct Hd as [->| ->]; [done|]. rewrite String.eqb_refl. apply orb_true_r. }
      split; by intros ->.
  - intros -> ->. split.
    + intros H%String.eqb_neq. by rewrite H.
    + intros ->. done.
  - vm_compute. reflexivity.
  - vm_compute. reflexivity.
Qed.

Lemma resolve_state (ctx : cli.Context) (option : string)
    (getDefaultDir : unit → string) (g g' : Globals) (dir : ConfigDir) (dirSet : bool) :
  resolve ctx option getDefaultDir g = Return (dir, dirSet) g' →
  g' = push_mkdir (path dir) g.
Proof.
  rewrite resolve_unfold. cbv zeta. unfold selected, useDirectory.
  repeat match goal with
         | |- context [if ?b then _ else _] => destruct b
         | |- context [match ?x with _ => _ end] => destruct x
         end; try discriminate; by intros [= <- _ <-].
Qed.

Let start := handleCommonCmdArgs filepath_Abs filepath_Join mkdirAll
  GlobalMinioDefaultPort defaultConfigDir_Get defaultCertsDir_Get.

(** C8.  Once both directory options are resolved, the certs directory is
    [<configDirectory>/certs] whenever the certs option was not explicit and
    the config option was (and the resolved certs directory otherwise); the
    CA directory is always [<certsDirectory>/CAs]; its creation is always
    attempted, and a failure to create it is fatal.  The only other runs
    are those in which resolving one of the two options was itself fatal. *)
Theorem certs_dir_inheritance (ctx : cli.Context) (g : Globals) :
  (∃ g1 err msg g',
      resolve ctx "config-dir" defaultConfigDir_Get g1 = Exit err msg g'
      ∧ start ctx g = Exit err msg g')
  ∨ (∃ g1 cfg configSet g2 err msg g',
      resolve ctx "config-dir" defaultConfigDir_Get g1 = Return (cfg, configSet) g2
      ∧ resolve ctx "certs-dir" defaultCertsDir_Get (set_globalConfigDir cfg g2)
        = Exit err msg g'
      ∧ start ctx g = Exit err msg g')
  ∨ (∃ g1 cfg configSet g2 crt certsSet g3,
      mkdirs g1 = mkdirs g
      ∧ resolve ctx "config-dir" defaultConfigDir_Get g1 = Return (cfg, configSet) g2
      ∧ resolve ctx "certs-dir" defaultCertsDir_Get (set_globalConfigDir cfg g2)
        = Return (crt, certsSet) g3
      ∧ let certs := if negb certsSet && configSet
                     then filepath_Join [path cfg; "certs"] else path crt in
        let ca := filepath_Join [certs; "CAs"] in
        ∃ gf,
          globalConfigDir gf = cfg
          ∧ path (globalCertsDir gf) = certs
          ∧ path (globalCertsCADir gf) = ca
          ∧ mkdirs gf = mkdirs g ++ [path cfg; path crt; ca]
          ∧ start ctx g =
              match mkdirAll ca with
              | Some err =>
                  Exit err ("Unable to create certs CA directory at " ++ ca)%string gf
              | None => Return () gf
              end).
Proof.
  unfold start, handleCommonCmdArgs, resolve. cbv zeta.
  unfold logger.EnableJSON, logger.EnableQuiet, logger.EnableAnonymous, mkdirAllIgnorePerm.
  run.
  destruct (cli.IsSet ctx "json" || cli.GlobalIsSet ctx "json");
    destruct (cli.IsSet ctx "quiet" || cli.GlobalIsSet ctx "quiet");
    destruct (cli.IsSet ctx "anonymous" || cli.GlobalIsSet ctx "anonymous").
  all: match goal with
       | |- context [newConfigDirFromCtx _ _ _ "config-dir" _ ?g1] =>
           set (G1 := g1);
           destruct (newConfigDirFromCtx filepath_Abs mkdirAll ctx "config-dir"
                       defaultConfigDir_Get G1)
             as [[cfg configSet] g2|e m g'] eqn:H1
       end;
       [|left; exists G1, e, m, g'; by split].
  all: destruct (newConfigDirFromCtx filepath_Abs mkdirAll ctx "certs-dir"
                   defaultCertsDir_Get (set_globalConfigDir cfg g2))
         as [[crt certsSet] g3|e m g'] eqn:H2;
       [|right; left; exists G1, cfg, configSet, g2, e, m, g'; by repeat split].
  all: right; right; exists G1, cfg, configSet, g2, crt, certsSet, g3.
  all: pose proof (resolve_state _ _ _ _ _ _ _ H1) as E1;
       pose proof (resolve_state _ _ _ _ _ _ _ H2) as E2.
  all: split; [reflexivity|]; split; [exact H1|]; split; [exact H2|].
  all: cbv zeta; destruct (negb certsSet && configSet); simpl.
  all: unfold Get, certsCADir, certsDir; rewrite E2, E1; simpl.
  all: eexists; split; [|split; [|split; [|split]]];
       [| | | |destruct (mkdirAll _); reflexivity]; try reflexivity.
  all: simpl; by rewrite <- !app_assoc.
Qed.

End DirectoryProperties.

(** A config directory given on the command's own scope is used as given. *)
Lemma directory_precedence_witness :
  newConfigDirFromCtx OK (λ _, None) (exampleContext "config-dir" (Some "/etc/minio") "")
    "config-dir" (λ _, "/root/.minio") initialGlobals
  = Return ({| path := "/etc/minio" |}, true) (push_mkdir "/etc/minio" initialGlobals).
Proof.
  pose proof (directory_precedence OK (λ _, None)
                (exampleContext "config-dir" (Some "/etc/minio") "")
                "config-dir" (λ _, "/root/.minio") initialGlobals) as H.
  cbv zeta in H. destruct H as (H & _).
  rewrite H; vm_compute; reflexivity.
Defined.

(** With only the config directory given, the certs directory is taken
    under it, and the CA directory under that; all are created. *)
Lemma certs_dir_inheritance_witness :
  ∃ gf,
    handleCommonCmdArgs OK (String.concat "/") (λ _, None) "9000"
      (λ _, "/root/.minio") (λ _, "/root/.minio/certs")
      (exampleContext "config-dir" (Some "/etc/minio") "") initialGlobals
    = Return () gf
    ∧ path (globalCertsDir gf) = "/etc/minio/certs"
    ∧ path (globalCertsCADir gf) = "/etc/minio/certs/CAs"
    ∧ mkdirs gf = ["/etc/minio"; "/root/.minio/certs"; "/etc/minio/certs/CAs"].
Proof.
  destruct (certs_dir_inheritance OK (String.concat "/") (λ _, None) "9000"
              (λ _, "/root/.minio") (λ _, "/root/.minio/certs")
              (exampleContext "config-dir" (Some "/etc/minio") "") initialGlobals)
    as [(g1 & e & m & g' & H & _)
       |[(g1 & cfg & configSet & g2 & e & m & g' & _ & H & _)
        |(g1 & cfg & configSet & g2 & crt & certsSet & g3 & Hm & H1 & H2 & gf & Hc & Hd & Hca & Hmk & Hr)]].
  - rewrite resolve_unfold in H. vm_compute in H. discriminate H.
  - rewrite resolve_unfold in H. vm_compute in H. discriminate H.
  - rewrite resolve_unfold in H1, H2. vm_compute in H1, H2.
    injection H1 as <- <- _. injection H2 as <- <- _.
    exists gf. vm_compute in Hr, Hd, Hca, Hmk. auto.
Defined.

(** ** TLS certificates *)

Section TLSProperties.

Variable filepath_Join : list string → string.
Variable isFile : string → bool.
Variable os_Open : string → option error.
Variable Readdir : string → result (list os.FileInfo).
Variable os_Stat : string → result os.FileInfo.
Variable Certificate : Type.
Variable ParsePublicCertFile : string → result (list Certificate).
Variable Manager : Type.
Variable NewManager : string → string → result Manager.
Variable AddCertificate : Manager → string → string → result Manager.

Let scan := scanEntry filepath_Join isFile os_Stat AddCertificate.
Local Abbreviation Resolves := (Resolves filepath_Join os_Stat).
Local Abbreviation Excluded := (Excluded filepath_Join isFile os_Stat).
Let load := getTLSConfig filepath_Join isFile os_Open Readdir os_Stat
  ParsePublicCertFile NewManager AddCertificate.

(** Rewrite the symbolic-link test of the loop body with what is known. *)
Ltac symlink_test :=
  match goal with
  | H : isSymlink ?f |- _ =>
      unfold isSymlink in H; rewrite H, N.eqb_refl
  | H : ¬ isSymlink ?f |- _ =>
      unfold isSymlink in H; apply N.eqb_neq in H; rewrite H
  end.

Lemma scan_excluded (root : string) (manager : Manager) (file : os.FileInfo)
    (g : Globals) :
  Excluded root file → scan root manager file g = Return manager g.
Proof.
  intros Hex. unfold scan, scanEntry.
  destruct (os.IsRegular _ || (_ =? _)%string || strings.HasPrefix _ _) eqn:Hskip;
    [reflexivity|].
  apply orb_false_elim in Hskip as [Hskip Hdots].
  apply orb_false_elim in Hskip as [Hreg Hname].
  cbv zeta.
  destruct Hex as [H|H|H|err Hl Hs|target Hl Hs Hd|dir [Hl|target Hl Hs Hd] Hf
                  |dir [Hl|target Hl Hs Hd] Hf].
  - congruence.
  - rewrite H in Hname. discriminate Hname.
  - congruence.
  - symlink_test. by rewrite Hs.
  - symlink_test. by rewrite Hs, Hd.
  - symlink_test. simpl. by rewrite Hf.
  - symlink_test. rewrite Hs; simpl. rewrite Hd; simpl. by rewrite Hf.
  - symlink_test. simpl. rewrite Hf. by rewrite orb_true_r.
  - symlink_test. rewrite Hs; simpl. rewrite Hd; simpl. rewrite Hf.
    by rewrite orb_true_r.
Qed.

Lemma forEachAcc_app {A B : Type} (l1 l2 : list A) (body : B → A → M B)
    (acc : B) (g : Globals) :
  forEachAcc (l1 ++ l2) body acc g =
    match forEachAcc l1 body acc g with
    | Return acc' g' => forEachAcc l2 body acc' g'
    | Exit err msg g' => Exit err msg g'
    end.
Proof.
  revert acc g. induction l1 as [|x l1 IH]; intros acc g; simpl.
  - reflexivity.
  - unfold mbind, M_bind. destruct (body acc x g) as [acc' g'|err msg g']; [|done].
    apply IH.
Qed.

Lemma scan_returns (root : string) (manager : Manager) (file : os.FileInfo)
    (g : Globals) :
  ∃ manager' g', scan root manager file g = Return manager' g'.
Proof.
  unfold scan, scanEntry.
  repeat match goal with
         | |- context [if ?b then _ else _] => destruct b
         | |- context [match ?x with _ => _ end] => destruct x
         end; cbv zeta; run; eauto.
Qed.

Lemma scan_all_returns (root : string) (files : list os.FileInfo)
    (manager : Manager) (g : Globals) :
  ∃ manager' g', forEachAcc files (scan root) manager g = Return manager' g'.
Proof.
  revert manager g. induction files as [|file files IH]; intros manager g; simpl.
  - by eexists _, _.
  - unfold mbind, M_bind.
    destruct (scan_returns root manager file g) as (m' & g' & ->). apply IH.
Qed.

(** [getTLSConfig] once the root pair is in place and the root directory
    is listed. *)
Lemma load_scan (g : Globals) (x509Certs : list Certificate) (manager : Manager)
    (files : list os.FileInfo) :
  let root := Get (globalCertsDir g) in
  let publicCert := filepath_Join [root; publicCertFile] in
  let privateKey := filepath_Join [root; privateKeyFile] in
  isFile publicCert = true → isFile privateKey = true →
  ParsePublicCertFile publicCert = OK x509Certs →
  NewManager publicCert privateKey = OK manager →
  os_Open root = None →
  Readdir root = OK files →
  load g =
    match forEachAcc files (scan root) manager g with
    | Return manager' g' => Return (x509Certs, Some manager', true, None) g'
    | Exit err msg g' => Exit err msg g'
    end.
Proof.
  intros root publicCert privateKey Hc Hk Hp Hm Ho Hr.
  unfold load, getTLSConfig, getPublicCertFile, getPrivateKeyFile. run.
  fold root. fold publicCert. fold privateKey.
  rewrite Hc, Hk. cbn. rewrite Hp. rewrite Hm. cbn. fold root.
  rewrite Ho, Hr. reflexivity.
Qed.

(** C4.  An entry that is a regular file, is named "CAs", has a name
    starting with "..", is a symbolic link that does not resolve or does
    not resolve to a directory, or whose directory lacks [public.crt] or
    [private.key], leaves the manager and the log as they were: the scan, and
    the whole load, give what they give without the entry. *)
Theorem excluded_entries (root : string) (file : os.FileInfo) :
  Excluded root file →
  (∀ manager g, scan root manager file g = Return manager g)
  ∧ (∀ before after manager g,
       forEachAcc (before ++ file :: after) (scan root) manager g
       = forEachAcc (before ++ after) (scan root) manager g)
  ∧ (∀ before after Readdir' g,
       root = Get (globalCertsDir g) →
       Readdir root = OK (before ++ file :: after) →
       Readdir' root = OK (before ++ after) →
       load g =
         getTLSConfig filepath_Join isFile os_Open Readdir' os_Stat
           ParsePublicCertFile NewManager AddCertificate g).
Proof.
  intros Hex.
  assert (∀ before after manager g,
            forEachAcc (before ++ file :: after) (scan root) manager g
            = forEachAcc (before ++ after) (scan root) manager g) as Hscan.
  { intros before after manager g. rewrite !forEachAcc_app.
    destruct (forEachAcc before (scan root) manager g) as [m' g'|]; [|done].
    simpl. unfold mbind, M_bind. by rewrite scan_excluded. }
  split; [intros; by apply scan_excluded|]. split; [exact Hscan|].
  intros before after Readdir' g -> Hr Hr'.
  unfold load, getTLSConfig, getPublicCertFile, getPrivateKeyFile. run.
  destruct (negb _); [done|].
  destruct (ParsePublicCertFile _); [|done].
  destruct (NewManager _ _) as [manager|]; [|done].
  destruct (os_Open _); [done|].
  rewrite Hr, Hr'. fold scan. by rewrite Hscan.
Qed.

(** What a scan adds to the log, it adds at the end. *)
Lemma scan_all_logged (root : string) (files : list os.FileInfo)
    (manager manager' : Manager) (g g' : Globals) :
  forEachAcc files (scan root) manager g = Return manager' g' →
  ∃ msgs, logged g' = logged g ++ msgs.
Proof.
  revert manager g. induction files as [|file files IH]; intros manager g; simpl.
  - intros [= _ <-]. exists []. by rewrite app_nil_r.
  - unfold mbind, M_bind.
    destruct (scan root manager file g) as [m1 g1|] eqn:Hstep; [|discriminate].
    intros (msgs & ->)%IH. revert Hstep. unfold scan, scanEntry.
    repeat match goal with
           | |- context [if ?b then _ else _] => destruct b
           | |- context [match ?x with _ => _ end] => destruct x
           end; cbv zeta; run; intros [= _ <-]; simpl.
    all: first [by exists msgs | rewrite <- app_assoc; by eexists].
Qed.

(** The step of the scan at a candidate directory whose pair is refused. *)
Lemma scan_refused (root : string) (manager : Manager) (file dir : os.FileInfo)
    (err : error) (g : Globals) :
  os.IsRegular (os.Mode file) = false →
  os.Name file ≠ "CAs" →
  strings.HasPrefix (os.Name file) ".." = false →
  Resolves root file dir →
  let certFile := filepath_Join [root; os.Name dir; publicCertFile] in
  let keyFile := filepath_Join [root; os.Name dir; privateKeyFile] in
  isFile certFile = true → isFile keyFile = true →
  AddCertificate manager certFile keyFile = Err err →
  scan root manager file g =
    Return manager
      (push_logged ("Unable to load TLS certificate '" ++ certFile ++ "," ++ keyFile
                    ++ "': " ++ err)%string g).
Proof.
  intros Hreg Hname Hdots Hres certFile keyFile Hc Hk Hadd.
  unfold scan, scanEntry. rewrite Hreg, Hdots.
  apply String.eqb_neq in Hname. rewrite Hname. cbn [orb]. cbv zeta.
  destruct Hres as [Hl|target Hl Hs Hd]; symlink_test.
  - fold certFile keyFile. rewrite Hc, Hk. cbn [negb orb].
    by rewrite Hadd.
  - rewrite Hs, Hd. cbn [negb]. fold certFile keyFile.
    rewrite Hc, Hk. cbn [negb orb]. by rewrite Hadd.
Qed.

(** C5.  When adding the pair of a candidate directory fails, the error is
    logged, the manager stays as it was and the scan goes on with the next
    entry.  Once the root pair is loaded and the root directory listed, the
    load returns, with no error, the manager the scan of the listing ends
    with; and when the pair of an entry of the listing is refused, the
    manager the load returns is the one the scan of the entries after it
    gives from the manager as it was, and the warning is in the log of the
    state the load ends in.  A root certificate that does not parse, a
    manager that cannot be seeded, and a root directory that cannot be
    opened or listed make the load return that error. *)
Theorem entry_failure_is_local (g : Globals) :
  let root := Get (globalCertsDir g) in
  let publicCert := filepath_Join [root; publicCertFile] in
  let privateKey := filepath_Join [root; privateKeyFile] in
  (∀ manager file dir err g0,
     os.IsRegular (os.Mode file) = false →
     os.Name file ≠ "CAs" →
     strings.HasPrefix (os.Name file) ".." = false →
     Resolves root file dir →
     let certFile := filepath_Join [root; os.Name dir; publicCertFile] in
     let keyFile := filepath_Join [root; os.Name dir; privateKeyFile] in
     isFile certFile = true → isFile keyFile = true →
     AddCertificate manager certFile keyFile = Err err →
     let warning := ("Unable to load TLS certificate '" ++ certFile ++ "," ++ keyFile
                     ++ "': " ++ err)%string in
     scan root manager file g0 = Return manager (push_logged warning g0)
     ∧ ∀ rest, forEachAcc (file :: rest) (scan root) manager g0
               = forEachAcc rest (scan root) manager (push_logged warning g0))
  ∧ (isFile publicCert = true → isFile privateKey = true →
     (∀ x509Certs manager files,
        ParsePublicCertFile publicCert = OK x509Certs →
        NewManager publicCert privateKey = OK manager →
        os_Open root = None →
        Readdir root = OK files →
        ∃ manager' g',
          forEachAcc files (scan root) manager g = Return manager' g'
          ∧ load g = Return (x509Certs, Some manager', true, None) g')
     ∧ (∀ x509Certs manager before file after dir err manager1 g1,
        ParsePublicCertFile publicCert = OK x509Certs →
        NewManager publicCert privateKey = OK manager →
        os_Open root = None →
        Readdir root = OK (before ++ file :: after) →
        forEachAcc before (scan root) manager g = Return manager1 g1 →
        os.IsRegular (os.Mode file) = false →
        os.Name file ≠ "CAs" →
        strings.HasPrefix (os.Name file) ".." = false →
        Resolves root file dir →
        let certFile := filepath_Join [root; os.Name dir; publicCertFile] in
        let keyFile := filepath_Join [root; os.Name dir; privateKeyFile] in
        isFile certFile = true → isFile keyFile = true →
        AddCertificate manager1 certFile keyFile = Err err →
        let warning := ("Unable to load TLS certificate '" ++ certFile ++ "," ++ keyFile
                        ++ "': " ++ err)%string in
        ∃ manager' g' later,
          forEachAcc after (scan root) manager1 (push_logged warning g1)
          = Return manager' g'
          ∧ load g = Return (x509Certs, Some manager', true, None) g'
          ∧ logged g' = logged g1 ++ warning :: later)
     ∧ (∀ err, ParsePublicCertFile publicCert = Err err →
          load g = Return ([], None, false, Some err) g)
     ∧ (∀ x509Certs err,
          ParsePublicCertFile publicCert = OK x509Certs →
          NewManager publicCert privateKey = Err err →
          load g = Return ([], None, false, Some err) g)
     ∧ (∀ x509Certs manager err,
          ParsePublicCertFile publicCert = OK x509Certs →
          NewManager publicCert privateKey = OK manager →
          os_Open root = Some err →
          load g = Return ([], None, false, Some err) g)
     ∧ (∀ x509Certs manager err,
          ParsePublicCertFile publicCert = OK x509Certs →
          NewManager publicCert privateKey = OK manager →
          os_Open root = None →
          Readdir root = Err err →
          load g = Return ([], None, false, Some err) g)).
Proof.
  intros root publicCert privateKey. split.
  - intros manager file dir err g0 Hreg Hname Hdots Hres certFile keyFile Hc Hk Hadd warning.
    pose proof (scan_refused root manager file dir err g0 Hreg Hname Hdots Hres Hc Hk Hadd)
      as Hstep.
    split; [exact Hstep|]. intros rest. simpl. unfold mbind, M_bind.
    by rewrite Hstep.
  - intros Hc Hk.
    split; [|split; [|repeat split]].
    + intros x509Certs manager files Hp Hm Ho Hr.
      rewrite (load_scan g x509Certs manager files Hc Hk Hp Hm Ho Hr).
      destruct (scan_all_returns (Get (globalCertsDir g)) files manager g)
        as (m' & g' & Hscan).
      exists m', g'. fold root in Hscan |- *. by rewrite Hscan.
    + intros x509Certs manager before file after dir err manager1 g1 Hp Hm Ho Hr
        Hbefore Hreg Hname Hdots Hres certFile keyFile Hcf Hkf Hadd warning.
      rewrite (load_scan g x509Certs manager _ Hc Hk Hp Hm Ho Hr).
      fold root. rewrite forEachAcc_app, Hbefore. simpl. unfold mbind, M_bind.
      rewrite (scan_refused root manager1 file dir err g1 Hreg Hname Hdots Hres
                 Hcf Hkf Hadd).
      fold certFile keyFile warning.
      destruct (scan_all_returns root after manager1 (push_logged warning g1))
        as (m' & g' & Hscan).
      rewrite Hscan. apply scan_all_logged in Hscan as Hlog.
      destruct Hlog as (later & Hlog). exists m', g', later.
      split; [done|]. split; [done|].
      rewrite Hlog. simpl. by rewrite <- app_assoc.
    + intros err Hp. unfold load, getTLSConfig, getPublicCertFile, getPrivateKeyFile.
      run. fold root. fold publicCert. fold privateKey. by rewrite Hc, Hk, Hp.
    + intros x509Certs err Hp Hm.
      unfold load, getTLSConfig, getPublicCertFile, getPrivateKeyFile.
      run. fold root. fold publicCert. fold privateKey. rewrite Hc, Hk. cbn.
      rewrite Hp. by rewrite Hm.
    + intros x509Certs manager err Hp Hm Ho.
      unfold load, getTLSConfig, getPublicCertFile, getPrivateKeyFile.
      run. fold root. fold publicCert. fold privateKey. rewrite Hc, Hk. cbn.
      rewrite Hp. rewrite Hm. cbn. fold root. by rewrite Ho.
    + intros x509Certs manager err Hp Hm Ho Hr.
      unfold load, getTLSConfig, getPublicCertFile, getPrivateKeyFile.
      run. fold root. fold publicCert. fold privateKey. rewrite Hc, Hk. cbn.
      rewrite Hp. rewrite Hm. cbn. fold root. by rewrite Ho, Hr.
Qed.

(** C6.  Unless the root directory holds both the root certificate and the
    root private key, the load answers "not configured": no certificates,
    no manager, secure mode off, no error, and nothing else happens. *)
Theorem not_configured (g : Globals) :
  let root := Get (globalCertsDir g) in
  isFile (filepath_Join [root; publicCertFile])
  && isFile (filepath_Join [root; privateKeyFile]) = false →
  load g = Return ([], None, false, None) g.
Proof.
  intros root Hmissing.
  unfold load, getTLSConfig, getPublicCertFile, getPrivateKeyFile. run.
  fold root. by rewrite Hmissing.
Qed.

(** C7 (amended).  With the root pair in place, [foo.com] holding both
    files and [bar.com] holding only [public.crt], the load returns the
    manager seeded with the root pair to which the pair of [foo.com] alone
    was added, and no error; [bar.com] is skipped silently: the state, and
    so the log, is what it was. *)
Theorem incomplete_directory_skipped (g : Globals) (x509Certs : list Certificate)
    (seeded withFoo : Manager) :
  let root := Get (globalCertsDir g) in
  let publicCert := filepath_Join [root; publicCertFile] in
  let privateKey := filepath_Join [root; privateKeyFile] in
  let fooCert := filepath_Join [root; "foo.com"; publicCertFile] in
  let fooKey := filepath_Join [root; "foo.com"; privateKeyFile] in
  isFile publicCert = true → isFile privateKey = true →
  ParsePublicCertFile publicCert = OK x509Certs →
  NewManager publicCert privateKey = OK seeded →
  os_Open root = None →
  Readdir root = OK [regularFile "public.crt"; regularFile "private.key";
                     directory "CAs"; directory "foo.com"; directory "bar.com"] →
  isFile fooCert = true → isFile fooKey = true →
  isFile (filepath_Join [root; "bar.com"; publicCertFile]) = true →
  isFile (filepath_Join [root; "bar.com"; privateKeyFile]) = false →
  AddCertificate seeded fooCert fooKey = OK withFoo →
  load g = Return (x509Certs, Some withFoo, true, None) g.
Proof.
  intros root publicCert privateKey fooCert fooKey
    Hc Hk Hp Hm Ho Hr Hfc Hfk Hbc Hbk Hadd.
  rewrite (load_scan g x509Certs seeded _ Hc Hk Hp Hm Ho Hr). fold root.
  change [regularFile "public.crt"; regularFile "private.key"; directory "CAs";
          directory "foo.com"; directory "bar.com"]
    with ([regularFile "public.crt"; regularFile "private.key"; directory "CAs";
           directory "foo.com"] ++ [directory "bar.com"]).
  rewrite forEachAcc_app.
  assert (forEachAcc [regularFile "public.crt"; regularFile "private.key";
                      directory "CAs"; directory "foo.com"] (scan root) seeded g
          = Return withFoo g) as ->.
  { simpl. unfold mbind, M_bind.
    rewrite !scan_excluded by (by constructor).
    unfold scan at 1, scanEntry. simpl. fold fooCert fooKey.
    rewrite Hfc, Hfk. simpl. by rewrite Hadd. }
  simpl. unfold mbind, M_bind.
  rewrite scan_excluded; [done|].
  apply (excluded_no_key _ _ _ root _ (directory "bar.com")); [|exact Hbk].
  apply resolves_self. unfold isSymlink. vm_compute. discriminate.
Qed.

End TLSProperties.

(** [bar.com], which has no private key, changes nothing. *)
Lemma excluded_entries_witness :
  scanEntry exampleJoin exampleIsFile exampleStat exampleAddCertificate "/certs"
    [("/certs/public.crt", "/certs/private.key")] (directory "bar.com") exampleGlobals
  = Return [("/certs/public.crt", "/certs/private.key")] exampleGlobals.
Proof.
  apply (excluded_entries exampleJoin exampleIsFile (λ _, None) exampleReaddir
           exampleStat _ exampleParse _ exampleNewManager exampleAddCertificate
           "/certs" (directory "bar.com")).
  apply (excluded_no_key _ _ _ _ _ (directory "bar.com")).
  - apply resolves_self. unfold isSymlink. vm_compute. discriminate.
  - vm_compute. reflexivity.
Defined.

(** With a manager that refuses the pair of [foo.com], the load logs the
    failure, goes on to [bar.com] and returns the manager with the root pair
    only, secure mode on and no error. *)
Lemma entry_failure_is_local_witness :
  getTLSConfig exampleJoin exampleIsFile (λ _, None) exampleReaddir exampleStat
    exampleParse exampleNewManager exampleAddRefusing exampleGlobals
  = Return (["/certs/public.crt"], Some [("/certs/public.crt", "/certs/private.key")],
            true, None)
      (push_logged
         "Unable to load TLS certificate '/certs/foo.com/public.crt,/certs/foo.com/private.key': tls: failed to find any PEM data in certificate input"
         exampleGlobals).
Proof.
  pose proof (entry_failure_is_local exampleJoin exampleIsFile (λ _, None)
                exampleReaddir exampleStat _ exampleParse _ exampleNewManager
                exampleAddRefusing exampleGlobals) as H.
  cbv zeta in H. destruct H as [_ H].
  destruct (H eq_refl eq_refl) as (_ & Hentry & _).
  destruct (Hentry ["/certs/public.crt"] [("/certs/public.crt", "/certs/private.key")]
              [regularFile "public.crt"; regularFile "private.key"; directory "CAs"]
              (directory "foo.com") [directory "bar.com"] (directory "foo.com")
              "tls: failed to find any PEM data in certificate input"
              [("/certs/public.crt", "/certs/private.key")] exampleGlobals)
    as (manager' & g' & later & Hscan & Hload & _).
  - reflexivity.
  - reflexivity.
  - reflexivity.
  - reflexivity.
  - vm_compute. reflexivity.
  - vm_compute. reflexivity.
  - discriminate.
  - vm_compute. reflexivity.
  - apply resolves_self. unfold isSymlink. vm_compute. discriminate.
  - vm_compute. reflexivity.
  - vm_compute. reflexivity.
  - vm_compute. reflexivity.
  - vm_compute in Hscan. injection Hscan as <- <-.
    etrans; [exact Hload|]. vm_compute. reflexivity.
Defined.

(** A certs directory without any file is not configured. *)
Lemma not_configured_witness :
  getTLSConfig exampleJoin (λ _, false) (λ _, None) exampleReaddir exampleStat
    exampleParse exampleNewManager exampleAddCertificate exampleGlobals
  = Return ([], None, false, None) exampleGlobals.
Proof.
  apply (not_configured exampleJoin (λ _, false) (λ _, None) exampleReaddir
           exampleStat _ exampleParse _ exampleNewManager exampleAddCertificate
           exampleGlobals).
  reflexivity.
Defined.

(** The example directory loads the root pair and the pair of [foo.com]. *)
Lemma incomplete_directory_skipped_witness :
  exampleLoad =
    Return (["/certs/public.crt"],
            Some [("/certs/public.crt", "/certs/private.key");
                  ("/certs/foo.com/public.crt", "/certs/foo.com/private.key")],
            true, None) exampleGlobals.
Proof.
  apply (incomplete_directory_skipped exampleJoin exampleIsFile (λ _, None)
           exampleReaddir exampleStat _ exampleParse _ exampleNewManager
           exampleAddCertificate exampleGlobals ["/certs/public.crt"]
           [("/certs/public.crt", "/certs/private.key")]
           [("/certs/public.crt", "/certs/private.key");
            ("/certs/foo.com/public.crt", "/certs/foo.com/private.key")]);
    vm_compute; reflexivity.
Defined.

(** C7 as stated asks for exactly one warning logged for [bar.com]; the
    load of the example directory logs none. *)
Lemma one_warning_counterexample :
  ¬ ∃ r g', exampleLoad = Return r g' ∧ length (logged g') = 1.
Proof.
  intros (r & g' & Hload & Hlog).
  vm_compute in Hload. injection Hload as _ <-.
  vm_compute in Hlog. discriminate Hlog.
Qed.

(** ** Public addresses *)

Section PublicIPProperties.

Variable environ : gmap string string.
Variable net_ParseIP : string → option (list N).
Variable net_LookupHost : string → result (list string).
Variable mustGetLocalIP4 : M (gset string).
Variable globalEndpoints_Hostnames : list string.

Let add := addEndpoint net_ParseIP net_LookupHost.
Local Abbreviation ResolvesTo := (ResolvesTo net_ParseIP net_LookupHost).
Let publish : M unit :=
  handlePublicIPs environ net_ParseIP net_LookupHost mustGetLocalIP4 globalEndpoints_Hostnames.

Lemma elem_of_foldl_add (addrs : list string) (ips : gset string) (x : string) :
  x ∈ foldl (λ ips addr, {[addr]} ∪ ips) ips addrs ↔ x ∈ ips ∨ x ∈ addrs.
Proof.
  revert ips. induction addrs as [|a addrs IH]; intros ips; simpl.
  - split; [auto|]. intros [?|Hx]; [done|by apply elem_of_nil in Hx].
  - rewrite IH, elem_of_union, elem_of_singleton, elem_of_cons. tauto.
Qed.

Lemma add_run (domainIPs : gset string) (endpoint : string) (g : Globals) :
  add domainIPs endpoint g =
    match net_ParseIP endpoint with
    | Some _ => Return ({[endpoint]} ∪ domainIPs) g
    | None =>
        match net_LookupHost endpoint with
        | OK addrs =>
            Return ({[endpoint]} ∪ foldl (λ ips addr, {[addr]} ∪ ips) domainIPs addrs) g
        | Err err =>
            Exit err ("Unable to initialize MinIO server with [" ++ endpoint
                      ++ "] invalid entry found in MINIO_PUBLIC_IPS")%string g
        end
    end.
Proof.
  unfold add, addEndpoint. run.
  destruct (net_ParseIP endpoint); [done|]. by destruct (net_LookupHost endpoint).
Qed.

Lemma endpoints_inv (tokens : list string) (acc ips : gset string) (g g' : Globals) :
  forEachAcc tokens add acc g = Return ips g' →
  g' = g
  ∧ (∀ t, t ∈ tokens → net_ParseIP t = None → ∃ addrs, net_LookupHost t = OK addrs)
  ∧ (∀ x, x ∈ ips ↔ x ∈ acc ∨ x ∈ tokens ∨ ∃ t, t ∈ tokens ∧ ResolvesTo t x).
Proof.
  revert acc g. induction tokens as [|t tokens IH]; intros acc g; simpl.
  - intros [= <- <-]. split; [done|]. split.
    + intros t Ht. by apply elem_of_nil in Ht.
    + intros x. split; [auto|].
      intros [?|[Hx|(t & Ht & _)]]; [done|by apply elem_of_nil in Hx
                                    |by apply elem_of_nil in Ht].
  - unfold mbind, M_bind. rewrite add_run.
    destruct (net_ParseIP t) as [ip|] eqn:Hip.
    + intros (-> & Hall & Hin)%IH. split; [done|]. split.
      * intros t' [->|Ht']%elem_of_cons; [congruence|by apply Hall].
      * intros x. rewrite Hin. split.
        -- intros [[->%elem_of_singleton|?]%elem_of_union|[?|(t' & ? & ?)]].
           ++ right. left. by left.
           ++ by left.
           ++ right. left. by right.
           ++ right. right. exists t'. split; [by right|done].
        -- intros [?|[[->|?]%elem_of_cons|(t' & [->|?]%elem_of_cons & Hr)]].
           ++ left. apply elem_of_union. by right.
           ++ left. apply elem_of_union. left. by apply elem_of_singleton.
           ++ right. by left.
           ++ destruct Hr as [Hr _]. congruence.
           ++ right. right. by exists t'.
    + destruct (net_LookupHost t) as [addrs|err] eqn:Hl; [|discriminate].
      intros (-> & Hall & Hin)%IH. split; [done|]. split.
      * intros t' [->|Ht']%elem_of_cons; [eauto|by apply Hall].
      * intros x. rewrite Hin. rewrite elem_of_union, elem_of_singleton, elem_of_foldl_add.
        split.
        -- intros [[->|[?|?]]|[?|(t' & ? & ?)]].
           ++ right. left. by left.
           ++ by left.
           ++ right. right. exists t. split; [by left|]. split; [done|]. eauto.
           ++ right. left. by right.
           ++ right. right. exists t'. split; [by right|done].
        -- intros [?|[[->|?]%elem_of_cons|(t' & [->|?]%elem_of_cons & Hr)]].
           ++ left. auto.
           ++ left. auto.
           ++ right. by left.
           ++ destruct Hr as (_ & addrs' & Hl' & Hx). rewrite Hl in Hl'.
              injection Hl' as <-. left. auto.
           ++ right. right. by exists t'.
Qed.

Lemma endpoints_total (tokens : list string) (acc : gset string) (g : Globals) :
  (∀ t, t ∈ tokens → net_ParseIP t = None → ∃ addrs, net_LookupHost t = OK addrs) →
  ∃ ips, forEachAcc tokens add acc g = Return ips g.
Proof.
  revert acc. induction tokens as [|t tokens IH]; intros acc Hall; simpl.
  - by eexists.
  - unfold mbind, M_bind. rewrite add_run.
    destruct (net_ParseIP t) as [ip|] eqn:Hip.
    + apply IH. intros t' Ht'. apply Hall. by right.
    + destruct (Hall t) as (addrs & ->); [by left|done|].
      apply IH. intros t' Ht'. apply Hall. by right.
Qed.

Lemma endpoints_exit (tokens : list string) (acc : gset string) (g g' : Globals)
    (err : error) (msg : string) :
  forEachAcc tokens add acc g = Exit err msg g' →
  g' = g ∧ ∃ t, t ∈ tokens ∧ net_ParseIP t = None ∧ net_LookupHost t = Err err.
Proof.
  revert acc. induction tokens as [|t tokens IH]; intros acc; simpl; [done|].
  unfold mbind, M_bind. rewrite add_run.
  destruct (net_ParseIP t) as [ip|] eqn:Hip.
  - intros (-> & t' & ? & ?)%IH. split; [done|]. exists t'. split; [by right|done].
  - destruct (net_LookupHost t) as [addrs|e] eqn:Hl.
    + intros (-> & t' & ? & ?)%IH. split; [done|]. exists t'. split; [by right|done].
    + intros [= <- <- <-]. split; [done|]. exists t. split; [by left|done].
Qed.

Lemma publish_explicit (g : Globals) :
  let publicIPs := env.Get environ config.EnvPublicIPs "" in
  let tokens := strings.Split publicIPs config.ValueSeparator in
  publicIPs ≠ "" →
  publish g =
    match forEachAcc tokens add ∅ g with
    | Return ips g' => Return () (push_domainIPs ips g')
    | Exit err msg g' => Exit err msg g'
    end.
Proof.
  intros publicIPs tokens Hne. unfold publish, handlePublicIPs.
  fold publicIPs.
  assert (negb (String.length publicIPs =? 0)%nat = true) as ->.
  { destruct publicIPs; [done|reflexivity]. }
  cbv zeta. fold tokens. fold add. unfold updateDomainIPs. run.
  by destruct (forEachAcc tokens add ∅ g).
Qed.

(** C9.  With [MINIO_PUBLIC_IPS] given, its value is split at the
    separator.  If every token that is not an IP address resolves, the set
    handed on holds every token that parses as an IP address and every
    address a host-name token resolves to, nothing but tokens and resolved
    addresses, and each of them once.  If a host-name token does not
    resolve, the process exits. *)
Theorem explicit_public_addresses (g : Globals) :
  let publicIPs := env.Get environ config.EnvPublicIPs "" in
  let tokens := strings.Split publicIPs config.ValueSeparator in
  publicIPs ≠ "" →
  ((∀ t, t ∈ tokens → net_ParseIP t = None → ∃ addrs, net_LookupHost t = OK addrs) →
   ∃ ips,
     publish g = Return () (push_domainIPs ips g)
     ∧ (∀ t, t ∈ tokens → is_Some (net_ParseIP t) → t ∈ ips)
     ∧ (∀ t addrs a,
          t ∈ tokens → net_ParseIP t = None → net_LookupHost t = OK addrs →
          a ∈ addrs → a ∈ ips)
     ∧ (∀ x, x ∈ ips → x ∈ tokens ∨ ∃ t, t ∈ tokens ∧ ResolvesTo t x)
     ∧ NoDup (elements ips))
  ∧ (∀ t err,
       t ∈ tokens → net_ParseIP t = None → net_LookupHost t = Err err →
       ∃ err' msg, publish g = Exit err' msg g).
Proof.
  intros publicIPs tokens Hne. rewrite (publish_explicit g Hne).
  subst tokens publicIPs. set (tokens := strings.Split _ _) in *.
  split.
  - intros Hall. destruct (endpoints_total tokens ∅ g Hall) as (ips & Hrun).
    rewrite Hrun. exists ips. split; [done|].
    apply endpoints_inv in Hrun as (_ & _ & Hin).
    split; [|split; [|split]].
    + intros t Ht _. apply Hin. auto.
    + intros t addrs a Ht Hip Hl Ha. apply Hin. right. right.
      exists t. split; [done|]. split; [done|]. eauto.
    + intros x [Hx|Hx]%Hin; [|done]. by apply elem_of_empty in Hx.
    + apply NoDup_elements.
  - intros t err Ht Hip Hl.
    destruct (forEachAcc tokens add ∅ g) as [ips g'|err' msg g'] eqn:Hrun.
    + apply endpoints_inv in Hrun as (_ & Hall & _).
      destruct (Hall t Ht Hip) as (addrs & Hl'). congruence.
    + apply endpoints_exit in Hrun as (-> & _). eauto.
Qed.

(** C10.  On the explicit path every raw token is itself in the set
    handed on, a host name as well as an IP address: next to the addresses
    it resolved to, a host-name token is a member of the set. *)
Theorem raw_tokens_kept (g g' : Globals) :
  let publicIPs := env.Get environ config.EnvPublicIPs "" in
  let tokens := strings.Split publicIPs config.ValueSeparator in
  publicIPs ≠ "" →
  publish g = Return () g' →
  ∃ ips,
    g' = push_domainIPs ips g
    ∧ (∀ t, t ∈ tokens → t ∈ ips)
    ∧ (∀ t, t ∈ tokens → net_ParseIP t = None →
         t ∈ ips ∧ ∃ addrs, net_LookupHost t = OK addrs ∧ ∀ a, a ∈ addrs → a ∈ ips).
Proof.
  intros publicIPs tokens Hne. rewrite (publish_explicit g Hne).
  subst tokens publicIPs. set (tokens := strings.Split _ _) in *.
  destruct (forEachAcc tokens add ∅ g) as [ips g1|] eqn:Hrun; [|discriminate].
  intros [= <-]. apply endpoints_inv in Hrun as (-> & Hall & Hin).
  exists ips. split; [done|]. split.
  - intros t Ht. apply Hin. auto.
  - intros t Ht Hip. split; [apply Hin; auto|].
    destruct (Hall t Ht Hip) as (addrs & Hl). exists addrs. split; [done|].
    intros a Ha. apply Hin. right. right. exists t. split; [done|].
    split; [done|]. eauto.
Qed.

End PublicIPProperties.

Lemma exampleTokens_resolve (t : string) :
  t ∈ strings.Split
        (env.Get {[config.EnvPublicIPs := "10.0.0.1,minio.example.com"]}
           config.EnvPublicIPs "") config.ValueSeparator →
  exampleParseIP t = None → ∃ addrs, exampleLookupHost t = OK addrs.
Proof.
  intros Ht. vm_compute in Ht.
  apply list_elem_of_In in Ht. simpl in Ht.
  destruct Ht as [<-|[<-|[]]]; [discriminate|].
  intros _. by exists ["192.168.1.5"].
Qed.

Lemma examplePublish_returns :
  ∃ ips, examplePublish initialGlobals = Return () (push_domainIPs ips initialGlobals).
Proof.
  unfold examplePublish. rewrite publish_explicit; [|vm_compute; discriminate].
  destruct (endpoints_total exampleParseIP exampleLookupHost _ ∅ initialGlobals
              exampleTokens_resolve) as (ips & ->).
  by exists ips.
Qed.

(** The address given and the address the host resolves to are both in the
    set. *)
Lemma explicit_public_addresses_witness :
  ∃ ips,
    examplePublish initialGlobals = Return () (push_domainIPs ips initialGlobals)
    ∧ "10.0.0.1" ∈ ips ∧ "192.168.1.5" ∈ ips.
Proof.
  pose proof (explicit_public_addresses
                {[config.EnvPublicIPs := "10.0.0.1,minio.example.com"]}
                exampleParseIP exampleLookupHost (mret ∅) [] initialGlobals) as H.
  cbv zeta in H.
  assert (env.Get {[config.EnvPublicIPs := "10.0.0.1,minio.example.com"]}
            config.EnvPublicIPs "" ≠ "") as Hne by (vm_compute; discriminate).
  destruct (H Hne) as [Hok _]. clear H.
  destruct (Hok exampleTokens_resolve) as (ips & Hrun & Hip & Hhost & _).
  exists ips. split; [exact Hrun|]. split.
  - apply Hip; [vm_compute; by left|vm_compute; eauto].
  - apply (Hhost "minio.example.com" ["192.168.1.5"]);
      [vm_compute; right; by left|reflexivity|reflexivity|by left].
Defined.

(** The host name itself is in the set, though it is no IP address. *)
Lemma raw_tokens_kept_witness :
  ∃ ips,
    examplePublish initialGlobals = Return () (push_domainIPs ips initialGlobals)
    ∧ "minio.example.com" ∈ ips
    ∧ exampleParseIP "minio.example.com" = None.
Proof.
  destruct examplePublish_returns as (ips & Hrun).
  assert (env.Get {[config.EnvPublicIPs := "10.0.0.1,minio.example.com"]}
            config.EnvPublicIPs "" ≠ "") as Hne by (vm_compute; discriminate).
  destruct (raw_tokens_kept
              {[config.EnvPublicIPs := "10.0.0.1,minio.example.com"]}
              exampleParseIP exampleLookupHost (mret ∅) [] initialGlobals _ Hne Hrun)
    as (ips' & Heq & Hin & _).
  exists ips'. rewrite Hrun. split; [by rewrite Heq|]. split; [|reflexivity].
  apply Hin. vm_compute. right. by left.
Defined.

(** * Further properties of the start-up code *)

(** ** More on the directory options *)

Section DirectoryOutcomes.

Variable filepath_Abs : string → result string.
Variable filepath_Join : list string → string.
Variable mkdirAll : string → option error.
Variable GlobalMinioDefaultPort : string.
Variable defaultConfigDir_Get : unit → string.
Variable defaultCertsDir_Get : unit → string.

Let resolve := newConfigDirFromCtx filepath_Abs mkdirAll.

Lemma useDirectory_return (option value : string) (flag dirSet : bool)
    (g g' : Globals) (dir : ConfigDir) :
  useDirectory filepath_Abs mkdirAll option value flag g = Return (dir, dirSet) g' →
  value ≠ "" ∧ filepath_Abs value = OK (path dir) ∧ mkdirAll (path dir) = None
  ∧ dirSet = flag ∧ g' = push_mkdir (path dir) g.
Proof.
  unfold useDirectory.
  destruct (value =? "")%string eqn:Hv; [discriminate|].
  apply String.eqb_neq in Hv.
  destruct (filepath_Abs value) as [dirAbs|] eqn:Ha; [|discriminate].
  destruct (mkdirAll dirAbs) eqn:Hm; [discriminate|].
  intros [= <- <- <-]. auto.
Qed.

Lemma useDirectory_exit (option value : string) (flag : bool)
    (g g' : Globals) (err : error) (msg : string) :
  useDirectory filepath_Abs mkdirAll option value flag g = Exit err msg g' →
  g' = g ∨ ∃ dirAbs, g' = push_mkdir dirAbs g.
Proof.
  unfold useDirectory.
  destruct (value =? "")%string; [intros [= _ _ <-]; by left|].
  destruct (filepath_Abs value) as [dirAbs|]; [|intros [= _ _ <-]; by left].
  destruct (mkdirAll dirAbs); [|discriminate].
  intros [= _ _ <-]. right. by exists dirAbs.
Qed.

(** X1.  A directory the resolver returns exists: it is the absolute form
    of a non-empty value taken from the command's own scope, the enclosing
    scope, the parent or the default provider, its creation succeeded, and
    that creation is all the run did to the process state. *)
Theorem resolved_directory_was_created (ctx : cli.Context) (option : string)
    (getDefaultDir : unit → string) (g g' : Globals) (dir : ConfigDir) (dirSet : bool) :
  resolve ctx option getDefaultDir g = Return (dir, dirSet) g' →
  g' = push_mkdir (path dir) g
  ∧ mkdirAll (path dir) = None
  ∧ ∃ value,
      value ≠ "" ∧ filepath_Abs value = OK (path dir)
      ∧ (value = cli.String ctx option ∨ value = cli.GlobalString ctx option
         ∨ value = cli.ParentGlobalString ctx option ∨ value = getDefaultDir ()).
Proof.
  unfold resolve. rewrite resolve_unfold. cbv zeta.
  repeat match goal with
         | |- context [if ?b then _ else _] => destruct b
         end; try discriminate.
  all: intros (Hv & Ha & Hm & _ & ->)%useDirectory_return.
  all: split; [done|]; split; [done|]; eexists; split; [exact Hv|]; split; [exact Ha|].
  all: auto.
Qed.

(** X2.  The explicit flag is sound: it is true only for an option some
    scope reports as set, and a directory returned as not explicit is always
    the default provider's directory. *)
Theorem explicit_flag_sound (ctx : cli.Context) (option : string)
    (getDefaultDir : unit → string) (g g' : Globals) (dir : ConfigDir) (dirSet : bool) :
  resolve ctx option getDefaultDir g = Return (dir, dirSet) g' →
  (dirSet = true →
     cli.IsSet ctx option = true ∨ cli.GlobalIsSet ctx option = true)
  ∧ (dirSet = false →
       cli.IsSet ctx option = false
       ∧ filepath_Abs (getDefaultDir ()) = OK (path dir)).
Proof.
  unfold resolve. rewrite resolve_unfold. cbv zeta.
  destruct (cli.IsSet ctx option) eqn:Hl.
  { intros (_ & _ & _ & -> & _)%useDirectory_return. split; [auto|discriminate]. }
  destruct (cli.GlobalIsSet ctx option) eqn:Hg.
  - destruct (_ || _) eqn:Hd.
    + destruct (cli.ParentGlobalIsSet ctx option).
      * intros (_ & _ & _ & -> & _)%useDirectory_return. split; [auto|discriminate].
      * intros (Hv & Ha & _ & -> & _)%useDirectory_return.
        split; [discriminate|]. intros _. split; [done|].
        apply orb_true_iff in Hd as [He%String.eqb_eq|He%String.eqb_eq];
          [done|by rewrite <- He].
    + intros (_ & _ & _ & -> & _)%useDirectory_return. split; [auto|discriminate].
  - destruct (getDefaultDir () =? "")%string; [discriminate|].
    intros (_ & Ha & _ & -> & _)%useDirectory_return. split; [discriminate|]. auto.
Qed.


Lemma resolve_exit_state (ctx : cli.Context) (option : string)
    (getDefaultDir : unit → string) (g g' : Globals) (err : error) (msg : string) :
  resolve ctx option getDefaultDir g = Exit err msg g' →
  g' = g ∨ ∃ dirAbs, g' = push_mkdir dirAbs g.
Proof.
  unfold resolve. rewrite resolve_unfold. cbv zeta.
  repeat match goal with
         | |- context [if ?b then _ else _] => destruct b
         end; try (by apply useDirectory_exit).
  intros [= _ _ <-]. by left.
Qed.

Let start := handleCommonCmdArgs filepath_Abs filepath_Join mkdirAll
  GlobalMinioDefaultPort defaultConfigDir_Get defaultCertsDir_Get.

(** X4.  Whatever becomes of the directories, the flags are recorded: in
    the state a run ends in, whether it returns or exits, the command-line
    context holds the json, quiet, anonymous, address and no-compat
    settings of the context, and the logger modes of the flags given are on,
    quiet mode also when only the json flag is given, none that was on being
    turned off. *)
Theorem flags_recorded (ctx : cli.Context) (g : Globals) :
  let g' := stateOf (start ctx g) in
  let json := cli.IsSet ctx "json" || cli.GlobalIsSet ctx "json" in
  let quiet := cli.IsSet ctx "quiet" || cli.GlobalIsSet ctx "quiet" in
  let anonymous := cli.IsSet ctx "anonymous" || cli.GlobalIsSet ctx "anonymous" in
  globalCLIContext g' =
    {| JSON := json; Quiet := quiet; Anonymous := anonymous;
       Addr := if (cli.GlobalString ctx "address" =? "")%string
                  || (cli.GlobalString ctx "address" =? ":" ++ GlobalMinioDefaultPort)%string
               then cli.String ctx "address" else cli.GlobalString ctx "address";
       StrictS3Compat :=
         negb (cli.IsSet ctx "no-compat" || cli.GlobalIsSet ctx "no-compat") |}
  ∧ loggerModes g' =
      {| jsonFlag := jsonFlag (loggerModes g) || json;
         quietFlag := quietFlag (loggerModes g) || json || quiet;
         anonFlag := anonFlag (loggerModes g) || anonymous |}.
Proof.
  unfold start, handleCommonCmdArgs. cbv zeta.
  unfold logger.EnableJSON, logger.EnableQuiet, logger.EnableAnonymous, mkdirAllIgnorePerm.
  run.
  destruct (cli.IsSet ctx "json" || cli.GlobalIsSet ctx "json");
    destruct (cli.IsSet ctx "quiet" || cli.GlobalIsSet ctx "quiet");
    destruct (cli.IsSet ctx "anonymous" || cli.GlobalIsSet ctx "anonymous").
  all: match goal with
       | |- context [newConfigDirFromCtx _ _ _ "config-dir" _ ?g1] =>
           set (G1 := g1);
           destruct (newConfigDirFromCtx filepath_Abs mkdirAll ctx "config-dir"
                       defaultConfigDir_Get G1)
             as [[cfg configSet] g2|e m g2] eqn:H1
       end.
  all: try (apply resolve_exit_state in H1 as [->|(d & ->)]; simpl;
            rewrite ?orb_true_r, ?orb_false_r; by destruct (loggerModes g)).
  all: apply resolve_state in H1 as ->.
  all: destruct (newConfigDirFromCtx filepath_Abs mkdirAll ctx "certs-dir"
                   defaultCertsDir_Get _)
         as [[crt certsSet] g3|e m g3] eqn:H2.
  all: try (apply resolve_exit_state in H2 as [->|(d & ->)]; simpl;
            rewrite ?orb_true_r, ?orb_false_r; by destruct (loggerModes g)).
  all: apply resolve_state in H2 as ->.
  all: destruct (negb certsSet && configSet); simpl.
  all: destruct (mkdirAll _); simpl.
  all: rewrite ?orb_true_r, ?orb_false_r; by destruct (loggerModes g).
Qed.

End DirectoryOutcomes.

(** A config directory given on the command's own scope exists once
    resolved. *)
Lemma resolved_directory_was_created_witness :
  exampleMkdirAll "/etc/minio" = None
  ∧ ∃ value, value ≠ "" ∧ exampleAbs value = OK "/etc/minio".
Proof.
  destruct (resolved_directory_was_created exampleAbs exampleMkdirAll
              (exampleContext "config-dir" (Some "/etc/minio") "")
              "config-dir" (λ _, "/root/.minio") initialGlobals
              (push_mkdir "/etc/minio" initialGlobals) {| path := "/etc/minio" |} true)
    as (_ & Hm & value & Hv & Ha & _).
  - vm_compute. reflexivity.
  - split; [exact Hm|]. exists value. by split.
Defined.

(** An inherited value equal to the default is the default's directory. *)
Lemma explicit_flag_sound_witness :
  exampleAbs "/root/.minio/certs" = OK "/root/.minio/certs".
Proof.
  destruct (explicit_flag_sound exampleAbs exampleMkdirAll
              (exampleContext "certs-dir" None "/root/.minio/certs")
              "certs-dir" (λ _, "/root/.minio/certs") initialGlobals
              (push_mkdir "/root/.minio/certs" initialGlobals)
              {| path := "/root/.minio/certs" |} false)
    as (_ & Hd).
  - vm_compute. reflexivity.
  - by destruct (Hd eq_refl) as (_ & Ha).
Defined.


(** ** More on the domain names *)

Section DomainOutcomes.

Variable environ : gmap string string.
Variable dns_IsDomainName : string → bool.

Lemma forEach_app {A : Type} (l1 l2 : list A) (body : A → M unit) (g : Globals) :
  forEach (l1 ++ l2) body g =
    match forEach l1 body g with
    | Return _ g' => forEach l2 body g'
    | Exit err msg g' => Exit err msg g'
    end.
Proof.
  revert g. induction l1 as [|x l1 IH]; intros g; simpl; [done|].
  unfold mbind, M_bind. destruct (body x g) as [[] g'|]; [apply IH|done].
Qed.

(** X5.  The first name that is not a domain name ends the run: the exit
    names it, the names before it have been stored unsorted, and nothing
    after it is looked at. *)
Theorem invalid_domain_exits (g : Globals) (before after : list string) (d : string) :
  let domains := env.Get environ config.EnvDomain "" in
  domains ≠ "" →
  strings.Split domains config.ValueSeparator = before ++ d :: after →
  Forall (λ b, dns_IsDomainName b = true) before →
  dns_IsDomainName d = false →
  handleDomains environ dns_IsDomainName g =
    Exit ("Unknown value `" ++ d ++ "`")%string
         "Invalid MINIO_DOMAIN value in environment variable"
         (set_globalDomainNames (λ names, names ++ before) g).
Proof.
  intros domains Hne Hsplit Hbefore Hd. unfold handleDomains. fold domains.
  assert (negb (String.length domains =? 0)%nat = true) as ->.
  { destruct domains; [done|reflexivity]. }
  rewrite Hsplit. unfold when at 1.
  unfold mbind at 1, M_bind at 1. rewrite forEach_app.
  rewrite (validate_loop dns_IsDomainName before g Hbefore).
  simpl. run. by rewrite Hd.
Qed.

End DomainOutcomes.

(** [example.com,exa mple.com,b.example.com]: the second name is refused. *)
Lemma invalid_domain_exits_witness :
  handleDomains {[config.EnvDomain := "example.com,exa mple.com,b.example.com"]}
    (λ d, negb (d =? "exa mple.com")%string) initialGlobals
  = Exit "Unknown value `exa mple.com`"
         "Invalid MINIO_DOMAIN value in environment variable"
         (set_globalDomainNames (λ names, names ++ ["example.com"]) initialGlobals).
Proof.
  apply (invalid_domain_exits
           {[config.EnvDomain := "example.com,exa mple.com,b.example.com"]}
           (λ d, negb (d =? "exa mple.com")%string) initialGlobals
           ["example.com"] ["b.example.com"] "exa mple.com").
  - vm_compute. discriminate.
  - vm_compute. reflexivity.
  - repeat constructor.
  - reflexivity.
Defined.

(** ** More on the public addresses *)

Section PublicIPOutcomes.

Variable environ : gmap string string.
Variable net_ParseIP : string → option (list N).
Variable net_LookupHost : string → result (list string).
Variable mustGetLocalIP4 : M (gset string).
Variable globalEndpoints_Hostnames : list string.

Let publish : M unit :=
  handlePublicIPs environ net_ParseIP net_LookupHost mustGetLocalIP4 globalEndpoints_Hostnames.

Lemma elem_of_added (addrs : list string) (ips : gset string) (x : string) :
  x ∈ foldl (λ ips addr, {[addr]} ∪ ips) ips addrs ↔ x ∈ ips ∨ x ∈ addrs.
Proof.
  revert ips. induction addrs as [|a addrs IH]; intros ips; simpl.
  - split; [auto|]. intros [?|Hx]; [done|by apply elem_of_nil in Hx].
  - rewrite IH, elem_of_union, elem_of_singleton, elem_of_cons. tauto.
Qed.

(** X6.  Without [MINIO_PUBLIC_IPS] neither the parser nor the resolver
    has a say, and the block ends as [mustGetLocalIP4] ends: if that ends
    the process, so does the block, with nothing handed on; if it answers
    a set, the set handed on holds these addresses and the host names of
    the endpoints, and only those. *)
Theorem implicit_public_addresses (g : Globals) :
  env.Get environ config.EnvPublicIPs "" = "" →
  ∀ parseIP lookupHost,
    match mustGetLocalIP4 g with
    | Exit err msg g1 =>
        handlePublicIPs environ parseIP lookupHost mustGetLocalIP4
          globalEndpoints_Hostnames g = Exit err msg g1
    | Return localIP4 g1 =>
        ∃ ips,
          handlePublicIPs environ parseIP lookupHost mustGetLocalIP4
            globalEndpoints_Hostnames g = Return () (push_domainIPs ips g1)
          ∧ ∀ x, x ∈ ips ↔ x ∈ localIP4 ∨ x ∈ globalEndpoints_Hostnames
    end.
Proof.
  intros Hempty parseIP lookupHost. unfold handlePublicIPs. rewrite Hempty.
  cbn [String.length Nat.eqb negb]. unfold mbind, M_bind.
  destruct (mustGetLocalIP4 g) as [localIP4 g1|err msg g1]; [|reflexivity].
  eexists. split; [reflexivity|]. intros x. apply elem_of_added.
Qed.

(** X7.  The first host name that does not resolve ends the run with its
    own error, naming it; no set is handed on and the state is as it was. *)
Theorem unresolvable_host_exits (g : Globals) (before after : list string)
    (t : string) (err : error) :
  let publicIPs := env.Get environ config.EnvPublicIPs "" in
  publicIPs ≠ "" →
  strings.Split publicIPs config.ValueSeparator = before ++ t :: after →
  (∀ b, b ∈ before → net_ParseIP b = None → ∃ addrs, net_LookupHost b = OK addrs) →
  net_ParseIP t = None →
  net_LookupHost t = Err err →
  publish g =
    Exit err ("Unable to initialize MinIO server with [" ++ t
              ++ "] invalid entry found in MINIO_PUBLIC_IPS")%string g.
Proof.
  intros publicIPs Hne Hsplit Hbefore Hip Hl. unfold publish.
  rewrite (publish_explicit environ net_ParseIP net_LookupHost _ _ g Hne).
  fold publicIPs. rewrite Hsplit, forEachAcc_app.
  destruct (endpoints_total net_ParseIP net_LookupHost before ∅ g Hbefore)
    as (ips & ->).
  simpl. unfold mbind, M_bind. rewrite add_run, Hip, Hl. reflexivity.
Qed.

End PublicIPOutcomes.

(** No variable at all: the local address and the endpoint's host. *)
Lemma implicit_public_addresses_witness :
  ∃ ips,
    handlePublicIPs ∅ exampleParseIP exampleLookupHost (mret {["192.168.1.7"]})
      ["minio.example.com"] initialGlobals
    = Return () (push_domainIPs ips initialGlobals)
    ∧ "192.168.1.7" ∈ ips ∧ "minio.example.com" ∈ ips.
Proof.
  assert (env.Get ∅ config.EnvPublicIPs "" = "") as Hempty by reflexivity.
  pose proof (implicit_public_addresses ∅ (mret {["192.168.1.7"]})
                ["minio.example.com"] initialGlobals Hempty exampleParseIP
                exampleLookupHost) as H.
  cbv [mret M_ret] in H. destruct H as (ips & Hrun & Hin).
  exists ips. split; [exact Hrun|]. split; apply Hin.
  - left. by apply elem_of_singleton.
  - right. by left.
Defined.

(** [10.0.0.1,nowhere.example.com]: the host has no address. *)
Lemma unresolvable_host_exits_witness :
  handlePublicIPs {[config.EnvPublicIPs := "10.0.0.1,nowhere.example.com"]}
    exampleParseIP exampleLookupHost (mret ∅) [] initialGlobals
  = Exit "no such host"
      "Unable to initialize MinIO server with [nowhere.example.com] invalid entry found in MINIO_PUBLIC_IPS"
      initialGlobals.
Proof.
  apply (unresolvable_host_exits
           {[config.EnvPublicIPs := "10.0.0.1,nowhere.example.com"]}
           exampleParseIP exampleLookupHost (mret ∅) [] initialGlobals
           ["10.0.0.1"] [] "nowhere.example.com" "no such host").
  - vm_compute. discriminate.
  - vm_compute. reflexivity.
  - intros b [->|[]%elem_of_nil]%elem_of_cons. discriminate.
  - reflexivity.
  - reflexivity.
Defined.

(** ** Splitting and decoding *)

Lemma append_cons (x : ascii) (a b : string) :
  (String x a ++ b)%string = String x (a ++ b).
Proof. reflexivity. Qed.

Lemma append_nil_l (a : string) : (""%string ++ a)%string = a.
Proof. reflexivity. Qed.

Lemma append_assoc (a b c : string) : ((a ++ b) ++ c = a ++ (b ++ c))%string.
Proof. induction a as [|x a IH]; [done|]. rewrite !append_cons. by f_equal. Qed.

Lemma append_nil_r (a : string) : (a ++ "")%string = a.
Proof. induction a as [|x a IH]; [done|]. rewrite append_cons. by f_equal. Qed.

Lemma chars_append (a b : string) :
  list_ascii_of_string (a ++ b) = list_ascii_of_string a ++ list_ascii_of_string b.
Proof. induction a as [|x a IH]; [done|]. rewrite append_cons. simpl. by f_equal. Qed.

Lemma prefix_nil (s : string) : String.prefix "" s = true.
Proof. by destruct s. Qed.

Lemma genSplit_exhausted (sep acc s : string) :
  strings.genSplit sep 0 0 acc s = [(acc ++ s)%string].
Proof.
  revert acc. induction s as [|x s IH]; intros acc; simpl.
  - by rewrite append_nil_r.
  - by rewrite IH, append_assoc, append_cons, append_nil_l.
Qed.

Lemma genSplit_no_sep (c : ascii) (n : nat) (acc s : string) :
  c ∉ list_ascii_of_string s →
  strings.genSplit (String c "") n 0 acc s = [(acc ++ s)%string].
Proof.
  revert acc. induction s as [|x s IH]; intros acc Hc; simpl.
  - by rewrite append_nil_r.
  - simpl in Hc. apply not_elem_of_cons in Hc as [Hx Hs].
    destruct n;
      [by rewrite genSplit_exhausted, append_assoc, append_cons, append_nil_l|].
    destruct (ascii_dec c x) as [->|_]; [done|].
    rewrite IH by done. by rewrite append_assoc, append_cons, append_nil_l.
Qed.

Lemma genSplit_cut (c : ascii) (n : nat) (acc a b : string) :
  c ∉ list_ascii_of_string a →
  strings.genSplit (String c "") (S n) 0 acc (a ++ String c b)
  = (acc ++ a)%string :: strings.genSplit (String c "") n 0 "" b.
Proof.
  revert acc. induction a as [|x a IH]; intros acc Hc;
    rewrite ?append_cons, ?append_nil_l; simpl.
  - destruct (ascii_dec c c); [|done]. by rewrite prefix_nil, append_nil_r.
  - simpl in Hc. apply not_elem_of_cons in Hc as [Hx Ha].
    destruct (ascii_dec c x) as [->|_]; [done|].
    rewrite IH by done. by rewrite append_assoc, append_cons, append_nil_l.
Qed.

Lemma genSplit_join (c : ascii) (s : string) :
  ∀ (n : nat) (acc : string),
    (String.length s ≤ n)%nat →
    c ∉ list_ascii_of_string acc →
    String.concat (String c "") (strings.genSplit (String c "") n 0 acc s)
    = (acc ++ s)%string
    ∧ Forall (λ t, c ∉ list_ascii_of_string t)
        (strings.genSplit (String c "") n 0 acc s).
Proof.
  induction s as [|x s IH]; intros n acc Hn Hacc; simpl.
  - rewrite append_nil_r. split; [done|]. by constructor.
  - simpl in Hn. destruct n as [|n]; [lia|].
    destruct (ascii_dec c x) as [->|Hx]; rewrite ?prefix_nil.
    + destruct (IH n ""%string) as [Hjoin Hall]; [lia|by intros ?%elem_of_nil|].
      split; [|by constructor].
      destruct (strings.genSplit (String x "") n 0 "" s) as [|t ts] eqn:Hg.
      { by apply genSplit_nonempty in Hg. }
      change (String.concat (String x "") (acc :: t :: ts))
        with (acc ++ String x "" ++ String.concat (String x "") (t :: ts))%string.
      by rewrite Hjoin, append_cons, !append_nil_l.
    + destruct (IH (S n) (acc ++ String x "")%string) as [Hjoin Hall]; [lia| |].
      { rewrite chars_append. simpl.
        intros [?|[->|[]%elem_of_nil]%elem_of_cons]%elem_of_app; done. }
      split; [|done]. by rewrite Hjoin, append_assoc, append_cons, append_nil_l.
Qed.

(** X8.  Splitting at a one-character separator loses nothing: the
    pieces joined by the separator are the string that was split, and no
    piece contains the separator.  So the names read from [MINIO_DOMAIN]
    and [MINIO_PUBLIC_IPS] are comma-free and determine the value. *)
Theorem split_join (c : ascii) (s : string) :
  String.concat (String c "") (strings.Split s (String c "")) = s
  ∧ Forall (λ t, c ∉ list_ascii_of_string t) (strings.Split s (String c "")).
Proof.
  unfold strings.Split.
  destruct (genSplit_join c s (String.length s) ""%string) as [Hjoin Hall];
    [lia|by intros ?%elem_of_nil|].
  by split.
Qed.

Lemma fromHexChar_lt (c : ascii) (v : N) :
  hex.fromHexChar c = Some v → (v < 16)%N.
Proof.
  unfold hex.fromHexChar.
  repeat match goal with
         | |- context [if ?b then _ else _] => destruct b eqn:?
         end; [| | |discriminate].
  all: intros [= <-].
  all: repeat match goal with
              | H : _ && _ = true |- _ => apply andb_true_iff in H as [? ?]
              | H : (_ <=? _)%N = true |- _ => apply N.leb_le in H
              end; lia.
Qed.

Lemma byte_lt (a b : N) :
  (a < 16)%N → (b < 16)%N → (N.lor (N.shiftl a 4) b < 256)%N.
Proof.
  intros Ha Hb.
  destruct a as [|p]; [|do 4 (try destruct p as [p|p|])]; try lia.
  all: destruct b as [|q]; [|do 4 (try destruct q as [q|q|])]; try lia.
  all: reflexivity.
Qed.

Lemma string_pair_ind (P : string → Prop) :
  P ""%string →
  (∀ a, P (String a "")) →
  (∀ a b s, P s → P (String a (String b s))) →
  ∀ s, P s.
Proof.
  intros H0 H1 H2 s.
  assert (P s ∧ ∀ a, P (String a s)) as [? _]; [|done].
  induction s as [|x s [IHs IHa]]; [by split|].
  split; [apply IHa|]. intros a. by apply H2.
Qed.

Lemma decoded_hex (s : string) (bytes : list N) :
  hex.DecodeString s = OK bytes →
  String.length s = 2 * length bytes
  ∧ Forall (λ b, (b < 256)%N) bytes
  ∧ Forall isHexDigit (list_ascii_of_string s).
Proof.
  revert bytes. induction s as [|a|a b s IH] using string_pair_ind; intros bytes.
  - intros [= <-]. simpl. repeat split; constructor.
  - simpl. destruct (hex.fromHexChar a); discriminate.
  - simpl.
    destruct (hex.fromHexChar a) as [x|] eqn:Ha; [|discriminate].
    destruct (hex.fromHexChar b) as [y|] eqn:Hb; [|discriminate].
    destruct (hex.DecodeString s) as [rest|] eqn:Hs; [|discriminate].
    intros [= <-]. destruct (IH rest eq_refl) as (Hlen & Hbytes & Hdigits).
    simpl. split; [lia|]. split.
    + constructor; [|done]. apply byte_lt; by eapply fromHexChar_lt.
    + constructor; [by exists x|]. constructor; [by exists y|done].
Qed.

(** X9.  Decoding succeeds exactly on an even number of hexadecimal
    digits, and then gives one byte, below 256, for every two digits. *)
Theorem decode_hex (s : string) :
  (∀ bytes,
     hex.DecodeString s = OK bytes →
     String.length s = 2 * length bytes
     ∧ Forall (λ b, (b < 256)%N) bytes
     ∧ Forall isHexDigit (list_ascii_of_string s))
  ∧ (Nat.Even (String.length s) →
     Forall isHexDigit (list_ascii_of_string s) →
     ∃ bytes, hex.DecodeString s = OK bytes).
Proof.
  split; [apply decoded_hex|].
  induction s as [|a|a b s IH] using string_pair_ind.
  - intros _ _. by exists [].
  - intros [k Hk]. simpl in Hk. lia.
  - intros [k Hk] Hdigits. simpl in Hk, Hdigits.
    apply Forall_cons in Hdigits as [[x Hx] Hdigits].
    apply Forall_cons in Hdigits as [[y Hy] Hdigits].
    destruct IH as (rest & Hrest); [exists (k - 1); lia|done|].
    exists (N.lor (N.shiftl x 4) y :: rest). simpl. by rewrite Hx, Hy, Hrest.
Qed.

(** ** More on the KMS variables *)

Section KMSOutcomes.

Variable environ : gmap string string.
Variable kms_Parse_err : string → option error.
Variable kms_New_err : string → list N → option error.
Variable crypto_ParseKESEndpoints : string → result (list string).
Variable crypto_NewKes_err : KesConfig → option error.

Let resolveKMS : M unit :=
  handleKMS environ kms_Parse_err kms_New_err crypto_ParseKESEndpoints crypto_NewKes_err.

Let secretKey := env.IsSet environ config.EnvKMSSecretKey.
Let masterKey := env.IsSet environ config.EnvKMSMasterKey.
Let kesEndpoint := env.IsSet environ config.EnvKESEndpoint.

(** X10.  A run that exits has configured nothing: the state is the one
    it started from, but for the deprecation warning when the legacy master
    key was looked at; [GlobalKMS] is never left half set. *)
Theorem kms_exit_leaves_kms (g g' : Globals) (err : error) (msg : string) :
  resolveKMS g = Exit err msg g' →
  (g' = g ∨ g' = push_logged legacyWarning g)
  ∧ GlobalKMS g' = GlobalKMS g ∧ kmsWrites g' = kmsWrites g.
Proof.
  intros Hrun.
  assert (g' = g ∨ g' = push_logged legacyWarning g) as Hg.
  { revert Hrun. unfold resolveKMS, handleKMS, ambiguous, kms_Parse, kms_New,
      crypto_NewKes, strings.SplitN.
    destruct (env.IsSet environ config.EnvKMSSecretKey);
      destruct (env.IsSet environ config.EnvKMSMasterKey);
      destruct (env.IsSet environ config.EnvKESEndpoint); run; simpl.
    all: try (intros [= _ _ <-]; by left).
    - destruct (kms_Parse_err _); [intros [= _ _ <-]; by left|discriminate].
    - destruct (kms_Parse_err _); [intros [= _ _ <-]; by left|discriminate].
    - destruct (strings.genSplit _ _ _ _ _) as [|v0 [|v1 [|? ?]]];
        try (intros [= _ _ <-]; by right).
      destruct (hex.DecodeString v1) as [rawKey|]; [|intros [= _ _ <-]; by right].
      destruct (kms_New_err v0 rawKey); [intros [= _ _ <-]; by right|discriminate].
    - destruct (crypto_ParseKESEndpoints _); [|intros [= _ _ <-]; by left].
      destruct (crypto_NewKes_err _); [intros [= _ _ <-]; by left|discriminate]. }
  split; [exact Hg|]. by destruct Hg as [->| ->].
Qed.

Lemma IsSet_delete (key other : string) :
  other ≠ key → env.IsSet (delete key environ) other = env.IsSet environ other.
Proof. intros Hne. unfold env.IsSet. by rewrite lookup_delete_ne. Qed.

Lemma Get_delete (key other dflt : string) :
  other ≠ key → env.Get (delete key environ) other dflt = env.Get environ other dflt.
Proof. intros Hne. unfold env.Get. by rewrite lookup_delete_ne. Qed.

(** X11.  A secret key takes the place of a legacy master key without a
    word: with the secret key set and no endpoint, the run is the one of the
    environment without the master key, whatever the master key holds; it
    is neither parsed nor warned about. *)
Theorem secret_key_shadows_master_key (g : Globals) :
  secretKey = true → kesEndpoint = false →
  resolveKMS g =
    handleKMS (delete config.EnvKMSMasterKey environ) kms_Parse_err kms_New_err
      crypto_ParseKESEndpoints crypto_NewKes_err g.
Proof.
  unfold secretKey, kesEndpoint, resolveKMS. intros Hs Hk.
  unfold handleKMS.
  rewrite !IsSet_delete, !Get_delete by done.
  rewrite Hs, Hk. simpl. rewrite !andb_false_r. reflexivity.
Qed.

(** X12.  With only the legacy master key set, the deprecation warning is
    logged first, whatever follows.  The value is cut at its first colon: a
    value without a colon is invalid; otherwise what precedes the colon is
    the identifier and all that follows is the key, which has to be an even
    number of hexadecimal digits (so a second colon is fatal), and the
    constructor has the last word. *)
Theorem legacy_master_key (g : Globals) :
  let value := env.Get environ config.EnvKMSMasterKey "" in
  let warned := push_logged legacyWarning g in
  secretKey = false → masterKey = true → kesEndpoint = false →
  (colon ∉ list_ascii_of_string value →
   resolveKMS g =
     Exit ("invalid " ++ config.EnvKMSMasterKey)%string unableToParseKMS warned)
  ∧ (∀ id key,
       value = (id ++ String colon key)%string →
       colon ∉ list_ascii_of_string id →
       resolveKMS g =
         match hex.DecodeString key with
         | Err err => Exit err unableToParseKMS warned
         | OK rawKey =>
             match kms_New_err id rawKey with
             | Some err => Exit err unableToParseKMS warned
             | None => Return () (set_GlobalKMS (LegacyMasterKey id rawKey) warned)
             end
         end)
  ∧ (∀ id key,
       value = (id ++ String colon key)%string →
       colon ∉ list_ascii_of_string id →
       Nat.Odd (String.length key) ∨ Exists (λ c, ¬ isHexDigit c) (list_ascii_of_string key) →
       ∃ err, resolveKMS g = Exit err unableToParseKMS warned).
Proof.
  intros value warned Hs Hm Hk.
  assert (resolveKMS g =
              match strings.SplitN value ":" 2 with
              | [v0; v1] =>
                  match hex.DecodeString v1 with
                  | Err err => Exit err unableToParseKMS warned
                  | OK rawKey =>
                      match kms_New_err v0 rawKey with
                      | Some err => Exit err unableToParseKMS warned
                      | None =>
                          Return () (set_GlobalKMS (LegacyMasterKey v0 rawKey) warned)
                      end
                  end
              | _ => Exit ("invalid " ++ config.EnvKMSMasterKey)%string
                       unableToParseKMS warned
              end) as Hrun.
  { unfold resolveKMS, handleKMS, ambiguous, kms_New.
    unfold secretKey, masterKey, kesEndpoint in Hs, Hm, Hk.
    rewrite Hs, Hm, Hk. fold value. run. simpl. fold warned.
    unfold strings.SplitN.
    destruct (strings.genSplit _ _ _ _ _) as [|v0 [|v1 [|? ?]]]; try done.
    destruct (hex.DecodeString v1) as [rawKey|]; [|done].
    by destruct (kms_New_err v0 rawKey). }
  assert (∀ id key,
            value = (id ++ String colon key)%string →
            colon ∉ list_ascii_of_string id →
            strings.SplitN value ":" 2 = [id; key]) as Hcut.
  { intros id key -> Hid. unfold strings.SplitN.
    change ":"%string with (String colon "").
    rewrite genSplit_cut by done. by rewrite genSplit_exhausted. }
  split; [|split].
  - intros Hno. rewrite Hrun. unfold strings.SplitN.
    change ":"%string with (String colon "").
    by rewrite genSplit_no_sep.
  - intros id key Hv Hid. by rewrite Hrun, (Hcut id key Hv Hid).
  - intros id key Hv Hid Hbad. rewrite Hrun, (Hcut id key Hv Hid).
    destruct (hex.DecodeString key) as [rawKey|err] eqn:Hd; [|by exists err].
    exfalso. apply decoded_hex in Hd as (Hlen & _ & Hdigits).
    destruct Hbad as [[k Hodd]|Hbad]; [lia|].
    apply Exists_exists in Hbad as (c & Hc & Hnot).
    rewrite Forall_forall in Hdigits. by apply Hnot, Hdigits.
Qed.

Lemma kms_return_configured (g g' : Globals) :
  resolveKMS g = Return () g' →
  secretKey || masterKey || kesEndpoint = true →
  kmsConfigured g' = true.
Proof.
  unfold resolveKMS, secretKey, masterKey, kesEndpoint, handleKMS, ambiguous,
    kms_Parse, kms_New, crypto_NewKes, strings.SplitN, kmsConfigured.
  destruct (env.IsSet environ config.EnvKMSSecretKey);
    destruct (env.IsSet environ config.EnvKMSMasterKey);
    destruct (env.IsSet environ config.EnvKESEndpoint); run; simpl;
    try discriminate.
  - destruct (kms_Parse_err _); [discriminate|]. by intros [= <-].
  - destruct (kms_Parse_err _); [discriminate|]. by intros [= <-].
  - destruct (strings.genSplit _ _ _ _ _) as [|v0 [|v1 [|? ?]]]; try discriminate.
    destruct (hex.DecodeString v1) as [rawKey|]; [|discriminate].
    destruct (kms_New_err v0 rawKey); [discriminate|]. by intros [= <-].
  - destruct (crypto_ParseKESEndpoints _); [|discriminate].
    destruct (crypto_NewKes_err _); [discriminate|]. by intros [= <-].
Qed.

End KMSOutcomes.

(** Secret key and endpoint together: the exit leaves [GlobalKMS] nil. *)
Lemma kms_exit_leaves_kms_witness :
  GlobalKMS
    (stateOf
       (handleKMS exampleKMSEnv (λ _, None) (λ _ _, None) (λ s, OK [s]) (λ _, None)
          initialGlobals))
  = None.
Proof.
  destruct (handleKMS exampleKMSEnv (λ _, None) (λ _ _, None) (λ s, OK [s])
              (λ _, None) initialGlobals) as [[] g'|err msg g'] eqn:Hrun.
  - vm_compute in Hrun. discriminate Hrun.
  - simpl.
    by destruct (kms_exit_leaves_kms exampleKMSEnv (λ _, None) (λ _ _, None)
                   (λ s, OK [s]) (λ _, None) initialGlobals g' err msg Hrun)
      as (_ & -> & _).
Defined.

(** A secret key beside a master key that does not even have a colon. *)
Lemma secret_key_shadows_master_key_witness :
  handleKMS
    (<[config.EnvKMSSecretKey := "my-key"]> {[config.EnvKMSMasterKey := "garbage"]})
    (λ _, None) (λ _ _, None) (λ s, OK [s]) (λ _, None) initialGlobals
  = Return () (set_GlobalKMS (StaticSecret "my-key") initialGlobals).
Proof.
  rewrite (secret_key_shadows_master_key
             (<[config.EnvKMSSecretKey := "my-key"]>
                {[config.EnvKMSMasterKey := "garbage"]})
             (λ _, None) (λ _ _, None) (λ s, OK [s]) (λ _, None) initialGlobals);
    vm_compute; reflexivity.
Defined.

(** [my-key:00ff:00]: the second colon is no hexadecimal digit. *)
Lemma legacy_master_key_witness :
  ∃ err,
    handleKMS {[config.EnvKMSMasterKey := "my-key:00ff:00"]}
      (λ _, None) (λ _ _, None) (λ s, OK [s]) (λ _, None) initialGlobals
    = Exit err unableToParseKMS (push_logged legacyWarning initialGlobals).
Proof.
  pose proof (legacy_master_key {[config.EnvKMSMasterKey := "my-key:00ff:00"]}
                (λ _, None) (λ _ _, None) (λ s, OK [s]) (λ _, None) initialGlobals) as H.
  cbv zeta in H.
  destruct H as (_ & _ & H); [vm_compute; reflexivity..|].
  apply (H "my-key" "00ff:00")%string.
  - vm_compute. reflexivity.
  - vm_compute. intros Hin. apply list_elem_of_In in Hin. simpl in Hin.
    repeat destruct Hin as [Hin|Hin]; try discriminate Hin. done.
  - right. apply Exists_exists. exists colon. split.
    + vm_compute. apply list_elem_of_In. simpl. tauto.
    + intros [v Hv]. vm_compute in Hv. discriminate Hv.
Defined.

(** ** Object layer features *)

Section FeatureOutcomes.

Variable GlobalGatewaySSE_IsSet : bool.
Variable globalCompressConfig_Enabled : bool.

Let verify := verifyObjectLayerFeatures GlobalGatewaySSE_IsSet globalCompressConfig_Enabled.

(** X13.  The check never changes the state, and it lets a back end
    through exactly when: encryption is supported if a KMS is configured; a
    KMS is configured if the back end is a gateway and gateway SSE is asked
    for; compression is supported if compression is enabled. *)
Theorem features_verified (name : string) (objAPI : ObjectLayer) (g : Globals) :
  stateOf (verify name objAPI g) = g
  ∧ (verify name objAPI g = Return () g ↔
     (kmsConfigured g = true → IsEncryptionSupported objAPI = true)
     ∧ (strings.HasPrefix name "gateway" = true → GlobalGatewaySSE_IsSet = true →
        kmsConfigured g = true)
     ∧ (globalCompressConfig_Enabled = true → IsCompressionSupported objAPI = true)).
Proof.
  unfold verify, verifyObjectLayerFeatures. run.
  destruct (kmsConfigured g) eqn:Hc;
    destruct (IsEncryptionSupported objAPI), (strings.HasPrefix name "gateway"),
      GlobalGatewaySSE_IsSet, globalCompressConfig_Enabled,
      (IsCompressionSupported objAPI); simpl; rewrite ?Hc; simpl.
  all: split; [reflexivity|]; split;
    [try discriminate; by intros _
    |intros (H1 & H2 & H3); try reflexivity;
     first [by specialize (H1 eq_refl)|by specialize (H2 eq_refl eq_refl)
           |by specialize (H3 eq_refl)]].
Qed.

Variable environ : gmap string string.
Variable kms_Parse_err : string → option error.
Variable kms_New_err : string → list N → option error.
Variable crypto_ParseKESEndpoints : string → result (list string).
Variable crypto_NewKes_err : KesConfig → option error.

Let resolveKMS : M unit :=
  handleKMS environ kms_Parse_err kms_New_err crypto_ParseKESEndpoints crypto_NewKes_err.

(** X14.  After the KMS variables: if any of them is set and the run
    returned, a back end without encryption support is refused; if none is
    set and no KMS was configured before, a gateway asked for SSE is
    refused for want of a KMS. *)
Theorem features_after_kms (name : string) (objAPI : ObjectLayer) (g g' : Globals) :
  resolveKMS g = Return () g' →
  (env.IsSet environ config.EnvKMSSecretKey
   || env.IsSet environ config.EnvKMSMasterKey
   || env.IsSet environ config.EnvKESEndpoint = true →
   IsEncryptionSupported objAPI = false →
   verify name objAPI g' =
     Exit errInvalidArgument
       ("Encryption support is requested but '" ++ name
        ++ "' does not support encryption")%string g')
  ∧ (env.IsSet environ config.EnvKMSSecretKey
     || env.IsSet environ config.EnvKMSMasterKey
     || env.IsSet environ config.EnvKESEndpoint = false →
     GlobalKMS g = None →
     strings.HasPrefix name "gateway" = true →
     GlobalGatewaySSE_IsSet = true →
     verify name objAPI g' =
       Exit "MINIO_GATEWAY_SSE set but KMS is not configured"
         "Unable to start gateway with SSE" g').
Proof.
  intros Hrun. split.
  - intros Hset Henc.
    pose proof (kms_return_configured _ _ _ _ _ g g' Hrun Hset) as Hc.
    unfold verify, verifyObjectLayerFeatures. run. by rewrite Hc, Henc.
  - intros Hnone Hnil Hgw Hsse.
    apply orb_false_elim in Hnone as [Hnone Hk].
    apply orb_false_elim in Hnone as [Hs Hm].
    revert Hrun. unfold resolveKMS, handleKMS. rewrite Hs, Hm, Hk. run. simpl.
    intros [= <-].
    unfold verify, verifyObjectLayerFeatures, kmsConfigured. run.
    rewrite Hnil, Hgw. simpl. by rewrite Hnil, Hsse.
Qed.

End FeatureOutcomes.

(** A static secret is configured; the file-system back end of the example
    does not encrypt. *)
Lemma features_after_kms_witness :
  verifyObjectLayerFeatures false false "fs"
    {| IsEncryptionSupported := false; IsCompressionSupported := true |}
    (set_GlobalKMS (StaticSecret "my-key") initialGlobals)
  = Exit errInvalidArgument
      "Encryption support is requested but 'fs' does not support encryption"
      (set_GlobalKMS (StaticSecret "my-key") initialGlobals).
Proof.
  apply (features_after_kms false false {[config.EnvKMSSecretKey := "my-key"]}
           (λ _, None) (λ _ _, None) (λ s, OK [s]) (λ _, None) "fs"
           {| IsEncryptionSupported := false; IsCompressionSupported := true |}
           initialGlobals);
    vm_compute; reflexivity.
Defined.

(** ** The environment variables as a whole *)

Section StartupOutcomes.

Variable environ : gmap string string.
Variable dns_IsDomainName : string → bool.
Variable net_ParseIP : string → option (list N).
Variable net_LookupHost : string → result (list string).
Variable mustGetLocalIP4 : M (gset string).
Variable globalEndpoints_Hostnames : list string.
Variable kms_Parse_err : string → option error.
Variable kms_New_err : string → list N → option error.
Variable crypto_ParseKESEndpoints : string → result (list string).
Variable crypto_NewKes_err : KesConfig → option error.
Variable config_LookupWorm : result bool.
Variable config_ParseBool : string → result bool.
Variable strings_EqualFold : string → string → bool.
Variable auth_CreateCredentials : string → string → result Credentials.

Let startEnv :=
  handleCommonEnvVars environ dns_IsDomainName net_ParseIP net_LookupHost mustGetLocalIP4
    globalEndpoints_Hostnames kms_Parse_err kms_New_err crypto_ParseKESEndpoints
    crypto_NewKes_err config_LookupWorm config_ParseBool strings_EqualFold
    auth_CreateCredentials.
Let domains := handleDomains environ dns_IsDomainName.
Let addresses :=
  handlePublicIPs environ net_ParseIP net_LookupHost mustGetLocalIP4 globalEndpoints_Hostnames.
Let resolveKMS :=
  handleKMS environ kms_Parse_err kms_New_err crypto_ParseKESEndpoints crypto_NewKes_err.
Let credentials := credentialsFrom environ auth_CreateCredentials.

Lemma credentials_return (user password : string) (cred cred' : Credentials)
    (g g' : Globals) :
  credentials user password cred g = Return cred' g' →
  g' = g
  ∧ if env.IsSet environ user || env.IsSet environ password
    then auth_CreateCredentials (env.Get environ user "") (env.Get environ password "")
         = OK cred'
    else cred' = cred.
Proof.
  unfold credentials, credentialsFrom.
  destruct (env.IsSet environ user || env.IsSet environ password).
  - destruct (auth_CreateCredentials _ _); [|discriminate]. by intros [= <- <-].
  - by intros [= <- <-].
Qed.

(** X15.  The switches come first: if the WORM lookup fails or reports
    WORM enabled, or the browser or fs-osync value is no boolean, the run
    exits with the domain names, the published addresses, the KMS and the
    log as they were; no domain, address or key is looked at. *)
Theorem switches_first (vars : EnvGlobals) (g : Globals) :
  config_LookupWorm ≠ OK false
  ∨ (∃ err, config_ParseBool (env.Get environ EnvBrowser EnableOn) = Err err)
  ∨ (∃ err, config_ParseBool (env.Get environ EnvFSOSync EnableOff) = Err err) →
  ∃ err msg, startEnv vars g = Exit err msg g.
Proof.
  unfold startEnv, handleCommonEnvVars. run.
  destruct config_LookupWorm as [[]|e]; simpl; eauto.
  intros [?|Hbad]; [done|].
  destruct (config_ParseBool (env.Get environ EnvBrowser EnableOn)) as [b|e];
    simpl; eauto.
  destruct Hbad as [[e ?]|[e He]]; [done|]. rewrite He. simpl. eauto.
Qed.

(** X16.  A run that returns went through every block in the order of the
    source: WORM is off, the two switches are booleans, and the domain
    names, the public addresses and the KMS variables were each handled with
    success, each on the state the one before left. *)
Theorem blocks_in_order (vars vars' : EnvGlobals) (g g' : Globals) :
  startEnv vars g = Return vars' g' →
  config_LookupWorm = OK false
  ∧ config_ParseBool (env.Get environ EnvBrowser EnableOn)
    = OK (globalBrowserEnabled vars')
  ∧ config_ParseBool (env.Get environ EnvFSOSync EnableOff) = OK (globalFSOSync vars')
  ∧ globalInplaceUpdateDisabled vars'
    = strings_EqualFold (env.Get environ EnvUpdate EnableOn) EnableOff
  ∧ ∃ g1 g2,
      domains g = Return () g1 ∧ addresses g1 = Return () g2
      ∧ resolveKMS g2 = Return () g'.
Proof.
  unfold startEnv, handleCommonEnvVars. fold domains addresses resolveKMS credentials.
  run.
  destruct config_LookupWorm as [[]|e]; simpl; try discriminate.
  destruct (config_ParseBool (env.Get environ EnvBrowser EnableOn)) as [b|e];
    simpl; [|discriminate].
  destruct (config_ParseBool (env.Get environ EnvFSOSync EnableOff)) as [f|e];
    simpl; [|discriminate].
  destruct (domains g) as [[] g1|] eqn:Hd; [|discriminate].
  destruct (addresses g1) as [[] g2|] eqn:Ha; [|discriminate].
  destruct (credentials EnvAccessKey EnvSecretKey (globalActiveCred vars) g2)
    as [c1 g3|] eqn:Hc1; [|discriminate].
  apply credentials_return in Hc1 as [-> _].
  destruct (credentials EnvRootUser EnvRootPassword c1 g2) as [c2 g4|] eqn:Hc2;
    [|discriminate].
  apply credentials_return in Hc2 as [-> _].
  destruct (resolveKMS g2) as [[] g5|] eqn:Hk; [|discriminate].
  intros [= <- <-]. simpl. repeat split; eauto.
Qed.

(** X17.  The root pair wins over the access-key pair: after a run that
    returned, the active credentials are those made from
    [MINIO_ROOT_USER]/[MINIO_ROOT_PASSWORD] if either is set, else those made
    from [MINIO_ACCESS_KEY]/[MINIO_SECRET_KEY] if either is set, else the ones
    in place before.  The access-key pair has to be valid all the same,
    even when the root pair replaces it. *)
Theorem root_credentials_win (vars vars' : EnvGlobals) (g g' : Globals) :
  let rootSet := env.IsSet environ EnvRootUser || env.IsSet environ EnvRootPassword in
  let accessSet := env.IsSet environ EnvAccessKey || env.IsSet environ EnvSecretKey in
  startEnv vars g = Return vars' g' →
  (rootSet = true →
   auth_CreateCredentials (env.Get environ EnvRootUser "")
     (env.Get environ EnvRootPassword "") = OK (globalActiveCred vars'))
  ∧ (rootSet = false → accessSet = true →
     auth_CreateCredentials (env.Get environ EnvAccessKey "")
       (env.Get environ EnvSecretKey "") = OK (globalActiveCred vars'))
  ∧ (rootSet = false → accessSet = false →
     globalActiveCred vars' = globalActiveCred vars)
  ∧ (accessSet = true →
     ∃ cred, auth_CreateCredentials (env.Get environ EnvAccessKey "")
               (env.Get environ EnvSecretKey "") = OK cred).
Proof.
  intros rootSet accessSet.
  unfold startEnv, handleCommonEnvVars. fold domains addresses resolveKMS credentials.
  run.
  destruct config_LookupWorm as [[]|e]; simpl; try discriminate.
  destruct (config_ParseBool (env.Get environ EnvBrowser EnableOn)) as [b|e];
    simpl; [|discriminate].
  destruct (config_ParseBool (env.Get environ EnvFSOSync EnableOff)) as [f|e];
    simpl; [|discriminate].
  destruct (domains g) as [[] g1|] eqn:Hd; [|discriminate].
  destruct (addresses g1) as [[] g2|] eqn:Ha; [|discriminate].
  destruct (credentials EnvAccessKey EnvSecretKey (globalActiveCred vars) g2)
    as [c1 g3|] eqn:Hc1; [|discriminate].
  apply credentials_return in Hc1 as [-> Hc1].
  destruct (credentials EnvRootUser EnvRootPassword c1 g2) as [c2 g4|] eqn:Hc2;
    [|discriminate].
  apply credentials_return in Hc2 as [-> Hc2].
  destruct (resolveKMS g2) as [[] g5|] eqn:Hk; [|discriminate].
  intros [= <- <-]. simpl. fold rootSet in Hc2. fold accessSet in Hc1.
  destruct rootSet, accessSet; subst; repeat split; try done; eauto.
Qed.

End StartupOutcomes.

(** WORM enabled: nothing else is looked at. *)
Lemma switches_first_witness :
  ∃ err msg,
    exampleStartEnv {[config.EnvDomain := "not a domain"]} (OK true) exampleVars
      initialGlobals
    = Exit err msg initialGlobals.
Proof.
  apply (switches_first {[config.EnvDomain := "not a domain"]} (λ _, true)
           exampleParseIP exampleLookupHost (mret ∅) [] (λ _, None) (λ _ _, None)
           (λ s, OK [s]) (λ _, None) (OK true) exampleParseBool String.eqb
           exampleCreateCredentials exampleVars initialGlobals).
  left. discriminate.
Defined.

(** An empty environment goes through every block. *)
Lemma blocks_in_order_witness :
  ∃ g1 g2,
    handleDomains ∅ (λ _, true) initialGlobals = Return () g1
    ∧ handlePublicIPs ∅ exampleParseIP exampleLookupHost (mret ∅) [] g1 = Return () g2
    ∧ handleKMS ∅ (λ _, None) (λ _ _, None) (λ s, OK [s]) (λ _, None) g2
      = Return () (push_domainIPs ∅ initialGlobals).
Proof.
  destruct (blocks_in_order ∅ (λ _, true) exampleParseIP exampleLookupHost (mret ∅) []
              (λ _, None) (λ _ _, None) (λ s, OK [s]) (λ _, None) (OK false)
              exampleParseBool String.eqb exampleCreateCredentials exampleVars
              {| globalBrowserEnabled := true; globalFSOSync := false;
                 globalInplaceUpdateDisabled := false;
                 globalActiveCred := globalActiveCred exampleVars |}
              initialGlobals (push_domainIPs ∅ initialGlobals))
    as (_ & _ & _ & _ & H).
  - vm_compute. reflexivity.
  - exact H.
Defined.

(** Both pairs given: the root pair is the one in force. *)
Lemma root_credentials_win_witness :
  exampleCreateCredentials "root" "root-password"
  = OK {| AccessKey := "root"; SecretKey := "root-password" |}.
Proof.
  pose proof (root_credentials_win
                (<[EnvRootUser := "root"]> (<[EnvRootPassword := "root-password"]>
                   (<[EnvAccessKey := "access"]> {[EnvSecretKey := "secret-key"]})))
                (λ _, true) exampleParseIP exampleLookupHost (mret ∅) []
                (λ _, None) (λ _ _, None) (λ s, OK [s]) (λ _, None) (OK false)
                exampleParseBool String.eqb exampleCreateCredentials exampleVars
                {| globalBrowserEnabled := true; globalFSOSync := false;
                   globalInplaceUpdateDisabled := false;
                   globalActiveCred :=
                     {| AccessKey := "root"; SecretKey := "root-password" |} |}
                initialGlobals (push_domainIPs ∅ initialGlobals)) as H.
  cbv zeta in H. destruct H as (H & _).
  - vm_compute. reflexivity.
  - assert (env.IsSet
              (<[EnvRootUser := "root"]> (<[EnvRootPassword := "root-password"]>
                 (<[EnvAccessKey := "access"]> {[EnvSecretKey := "secret-key"]})))
              EnvRootUser
            || env.IsSet
                 (<[EnvRootUser := "root"]> (<[EnvRootPassword := "root-password"]>
                    (<[EnvAccessKey := "access"]> {[EnvSecretKey := "secret-key"]})))
                 EnvRootPassword = true) as Hset by (vm_compute; reflexivity).
    apply H in Hset. vm_compute in Hset. vm_compute. exact Hset.
Defined.

(** ** More on the TLS certificates *)

Section TLSOutcomes.

Variable filepath_Join : list string → string.
Variable isFile : string → bool.
Variable os_Open : string → option error.
Variable Readdir : string → result (list os.FileInfo).
Variable os_Stat : string → result os.FileInfo.
Variable Certificate : Type.
Variable ParsePublicCertFile : string → result (list Certificate).
Variable Manager : Type.
Variable NewManager : string → string → result Manager.
Variable AddCertificate : Manager → string → string → result Manager.

Let scan := scanEntry filepath_Join isFile os_Stat AddCertificate.
Let load := getTLSConfig filepath_Join isFile os_Open Readdir os_Stat
  ParsePublicCertFile NewManager AddCertificate.
Local Abbreviation Resolves := (Resolves filepath_Join os_Stat).
Local Abbreviation Excluded := (Excluded filepath_Join isFile os_Stat).

(** X18.  Every entry of the root directory meets one of three fates: it
    is left out, with manager and state as they were; or it stands for a
    directory with both files, and its pair is added to the manager, the
    state being as it was; or adding its pair fails, and the failure is
    logged with the manager as it was.  A symbolic link to such a directory
    counts as the directory. *)
Theorem entry_fate (root : string) (manager : Manager) (file : os.FileInfo)
    (g : Globals) :
  (Excluded root file ∧ scan root manager file g = Return manager g)
  ∨ ∃ dir,
      Resolves root file dir
      ∧ os.IsRegular (os.Mode file) = false ∧ os.Name file ≠ "CAs"
      ∧ strings.HasPrefix (os.Name file) ".." = false
      ∧ let certFile := filepath_Join [root; os.Name dir; publicCertFile] in
        let keyFile := filepath_Join [root; os.Name dir; privateKeyFile] in
        isFile certFile = true ∧ isFile keyFile = true
        ∧ match AddCertificate manager certFile keyFile with
          | OK manager' => scan root manager file g = Return manager' g
          | Err err =>
              scan root manager file g =
                Return manager
                  (push_logged
                     ("Unable to load TLS certificate '" ++ certFile ++ "," ++ keyFile
                      ++ "': " ++ err)%string g)
          end.
Proof.
  assert (∀ H : Excluded root file,
            Excluded root file ∧ scan root manager file g = Return manager g) as Hleft.
  { intros H. split; [done|]. by apply scan_excluded. }
  destruct (os.IsRegular (os.Mode file)) eqn:Hreg; [left; apply Hleft; by constructor|].
  destruct (os.Name file =? "CAs")%string eqn:Hname;
    [left; apply Hleft; apply excluded_CAs; by apply String.eqb_eq|].
  destruct (strings.HasPrefix (os.Name file) "..") eqn:Hdots;
    [left; apply Hleft; by apply excluded_dotdot|].
  assert (∀ dir, Resolves root file dir →
            (if (N.land (os.Mode file) os.ModeSymlink =? os.ModeSymlink)%N
             then match os_Stat (filepath_Join [root; os.Name file]) with
                  | Err _ => None
                  | OK file' =>
                      if negb (os.IsDir (os.Mode file')) then None else Some file'
                  end
             else Some file) = Some dir) as Hres.
  { intros dir [Hl|target Hl Hs Hd]; unfold isSymlink in Hl.
    - apply N.eqb_neq in Hl. by rewrite Hl.
    - by rewrite Hl, N.eqb_refl, Hs, Hd. }
  assert (∃ dir, Resolves root file dir ∨ Excluded root file) as (dir & [Hdir|Hex]).
  { destruct (N.land (os.Mode file) os.ModeSymlink =? os.ModeSymlink)%N eqn:Hl.
    - apply N.eqb_eq in Hl.
      destruct (os_Stat (filepath_Join [root; os.Name file])) as [target|err] eqn:Hs.
      + destruct (os.IsDir (os.Mode target)) eqn:Hd.
        * exists target. left. by apply resolves_link.
        * exists file. right. by eapply excluded_not_dir.
      + exists file. right. by eapply excluded_unresolved.
    - apply N.eqb_neq in Hl. exists file. left. by apply resolves_self. }
  2: { left. by apply Hleft. }
  destruct (isFile (filepath_Join [root; os.Name dir; publicCertFile])) eqn:Hc;
    [|left; apply Hleft; by eapply excluded_no_cert].
  destruct (isFile (filepath_Join [root; os.Name dir; privateKeyFile])) eqn:Hk;
    [|left; apply Hleft; by eapply excluded_no_key].
  right. exists dir. split; [done|]. split; [done|].
  split; [by apply String.eqb_neq|]. split; [done|]. cbv zeta.
  split; [done|]. split; [done|].
  unfold scan, scanEntry. rewrite Hreg, Hname, Hdots. cbn [orb]. cbv zeta.
  rewrite (Hres dir Hdir), Hc, Hk. cbn [negb orb].
  by destruct (AddCertificate manager _ _).
Qed.

Lemma scan_state (root : string) (manager manager' : Manager) (file : os.FileInfo)
    (g g' : Globals) :
  scan root manager file g = Return manager' g' →
  g' = g ∨ ∃ msg, g' = push_logged msg g.
Proof.
  unfold scan, scanEntry.
  repeat match goal with
         | |- context [if ?b then _ else _] => destruct b
         | |- context [match ?x with _ => _ end] => destruct x
         end; cbv zeta; run; intros [= _ <-]; eauto.
Qed.

Lemma scan_all_state (root : string) (files : list os.FileInfo)
    (manager manager' : Manager) (g g' : Globals) :
  forEachAcc files (scan root) manager g = Return manager' g' →
  ∃ msgs, g' = logging msgs g ∧ (length msgs ≤ length files)%nat.
Proof.
  revert manager g. induction files as [|file files IH]; intros manager g; simpl.
  - intros [= _ <-]. exists []. by split.
  - unfold mbind, M_bind.
    destruct (scan root manager file g) as [m1 g1|] eqn:Hstep; [|discriminate].
    intros (msgs & -> & Hlen)%IH.
    apply scan_state in Hstep as [->|(msg & ->)].
    + exists msgs. split; [done|]. lia.
    + exists (msg :: msgs). split; [done|]. simpl. lia.
Qed.

(** X19.  Loading never ends the process, and its four results hang
    together: secure mode is on exactly when a manager is returned; an
    error comes with no manager, no certificates and secure mode off; a
    manager comes with no error and only when both root files exist. *)
Theorem load_results (g : Globals) :
  ∃ x509Certs manager secureConn err g',
    load g = Return (x509Certs, manager, secureConn, err) g'
    ∧ (secureConn = true ↔ is_Some manager)
    ∧ (is_Some err → manager = None ∧ x509Certs = [] ∧ secureConn = false)
    ∧ (is_Some manager →
       err = None
       ∧ isFile (filepath_Join [Get (globalCertsDir g); publicCertFile]) = true
       ∧ isFile (filepath_Join [Get (globalCertsDir g); privateKeyFile]) = true).
Proof.
  unfold load, getTLSConfig, getPublicCertFile, getPrivateKeyFile. run.
  destruct (isFile (filepath_Join [Get (globalCertsDir g); publicCertFile])) eqn:Hc;
    destruct (isFile (filepath_Join [Get (globalCertsDir g); privateKeyFile])) eqn:Hk;
    simpl.
  2-4: eexists _, _, _, _, _; split; [reflexivity|];
       repeat split; try done; by intros [? [=]].
  destruct (ParsePublicCertFile _) as [x509Certs|e].
  2: { eexists _, _, _, _, _; split; [reflexivity|].
       repeat split; try done; by intros [? [=]]. }
  destruct (NewManager _ _) as [manager|e].
  2: { eexists _, _, _, _, _; split; [reflexivity|].
       repeat split; try done; by intros [? [=]]. }
  destruct (os_Open _) as [e|].
  { eexists _, _, _, _, _; split; [reflexivity|].
    repeat split; try done; by intros [? [=]]. }
  destruct (Readdir _) as [files|e].
  2: { eexists _, _, _, _, _; split; [reflexivity|].
       repeat split; try done; by intros [? [=]]. }
  destruct (scan_all_returns filepath_Join isFile os_Stat Manager AddCertificate
              (Get (globalCertsDir g)) files manager g) as (m' & g' & Hscan).
  fold scan in Hscan |- *. rewrite Hscan.
  eexists _, _, _, _, _; split; [reflexivity|].
  repeat split; try done; by intros [? [=]].
Qed.

(** X20.  Loading touches nothing of the process state but the log, to
    which it only adds: at most one entry for each entry of the root
    directory, and none at all when no manager is returned. *)
Theorem load_only_logs (g g' : Globals) (x509Certs : list Certificate)
    (manager : option Manager) (secureConn : bool) (err : option error) :
  load g = Return (x509Certs, manager, secureConn, err) g' →
  ∃ msgs,
    g' = logging msgs g
    ∧ (manager = None → msgs = [])
    ∧ ∀ files, Readdir (Get (globalCertsDir g)) = OK files →
              (length msgs ≤ length files)%nat.
Proof.
  unfold load, getTLSConfig, getPublicCertFile, getPrivateKeyFile. run.
  destruct (negb _);
    [intros [= _ <- _ _ <-]; exists []; split; [reflexivity|]; split; [done|]; intros; simpl; lia|].
  destruct (ParsePublicCertFile _) as [certs|e];
    [|intros [= _ <- _ _ <-]; exists []; split; [reflexivity|]; split; [done|]; intros; simpl; lia].
  destruct (NewManager _ _) as [m0|e];
    [|intros [= _ <- _ _ <-]; exists []; split; [reflexivity|]; split; [done|]; intros; simpl; lia].
  destruct (os_Open _) as [e|];
    [intros [= _ <- _ _ <-]; exists []; split; [reflexivity|]; split; [done|]; intros; simpl; lia|].
  destruct (Readdir _) as [files|e] eqn:Hr;
    [|intros [= _ <- _ _ <-]; exists []; split; [reflexivity|]; split; [done|]; intros; simpl; lia].
  fold scan.
  destruct (forEachAcc files (scan (Get (globalCertsDir g))) m0 g) as [m' g1|] eqn:Hscan;
    [|discriminate].
  intros [= _ <- _ _ <-].
  apply scan_all_state in Hscan as (msgs & -> & Hlen).
  exists msgs. split; [done|]. split; [discriminate|].
  intros files' [= <-]. exact Hlen.
Qed.

End TLSOutcomes.

(** The example directory: nothing is logged, within the bound of five
    entries. *)
Lemma load_only_logs_witness :
  ∃ msgs, exampleGlobals = logging msgs exampleGlobals ∧ (length msgs ≤ 5)%nat.
Proof.
  destruct (load_only_logs exampleJoin exampleIsFile (λ _, None) exampleReaddir
              exampleStat _ exampleParse _ exampleNewManager exampleAddCertificate
              exampleGlobals exampleGlobals ["/certs/public.crt"]
              (Some [("/certs/public.crt", "/certs/private.key");
                     ("/certs/foo.com/public.crt", "/certs/foo.com/private.key")])
              true None) as (msgs & Hg & _ & Hlen).
  - vm_compute. reflexivity.
  - exists msgs. split; [exact Hg|]. by apply (Hlen _ eq_refl).
Defined.
